(** * Client repository over PostgreSQL (maim.py): model and verification

    The program is a Python class [ClientDatabase] that drives a PostgreSQL
    database through psycopg2.  Every method is a short sequence of SQL
    statements wrapped in [try ... except Error].  The development below
    embeds

    - the two tables declared by [create_tables], with the constraints of
      their DDL (SERIAL primary keys, VARCHAR(n), NOT NULL, UNIQUE,
      REFERENCES ... ON DELETE CASCADE);
    - each SQL statement of the program as a function on the database;
    - each method as a function on a session (database plus the log of the
      statements sent through the cursor), psycopg2 errors being caught the
      way the method catches them.

    What is taken for granted:

    - arguments have the types of the signatures: ids are integers, names,
      emails, phones and keyword values are strings;
    - text is modelled by [string], one [ascii] per character, and ILIKE
      folds the letters A-Z; a text is one the driver can send (psycopg2
      refuses a string with a NUL character by a ValueError, which no
      method catches);
    - the connection is up and has one caller: a statement fails only by
      the constraints of the schema, and nothing runs between two
      statements of a method;
    - the tables are those of [create_tables], on a database that had none;
    - ARRAY_AGG, which SQL leaves free to aggregate in any order, takes the
      rows in the order of the phones table.

    Console output is left out. *)

From Stdlib Require Import Ascii.
From stdpp Require Import base numbers option list sorting strings pretty gmap.

Local Open Scope Z_scope.

(** ** Text as the database sees it *)

Module Text.

Definition lower_char (c : ascii) : ascii :=
  let n := N_of_ascii c in
  if ((65 <=? n) && (n <=? 90))%N then ascii_of_N (n + 32) else c.

Fixpoint lower (s : string) : string :=
  match s with
  | EmptyString => EmptyString
  | String c s' => String (lower_char c) (lower s')
  end.

Fixpoint take (n : nat) (s : string) : string :=
  match n, s with
  | S n', String c s' => String c (take n' s')
  | _, _ => EmptyString
  end.

Fixpoint drop (n : nat) (s : string) : string :=
  match n, s with
  | S n', String _ s' => drop n' s'
  | _, _ => s
  end.

Fixpoint all_spaces (s : string) : bool :=
  match s with
  | EmptyString => true
  | String c s' => bool_decide (c = " "%char) && all_spaces s'
  end.

(** Storing [s] in a VARCHAR(n) column.  The PostgreSQL manual (8.3,
    Character Types): "An attempt to store a longer string into a column
    of these types will result in an error, unless the excess characters
    are all spaces, in which case the string will be truncated to the
    maximum length."  [None] is that error (value too long for type
    character varying(n)). *)
Definition varchar (n : nat) (s : string) : option string :=
  if bool_decide (String.length s ≤ n)%nat then Some s
  else if all_spaces (drop n s) then Some (take n s)
  else None.

(** LIKE patterns: [%] any sequence, [_] any one character, backslash
    takes the next character literally. *)
Inductive like_tok := AnySeq | AnyChar | Lit (c : ascii).

Fixpoint like_tokens (p : string) : option (list like_tok) :=
  match p with
  | EmptyString => Some []
  | String c p' =>
      if bool_decide (c = "\"%char) then
        match p' with
        | EmptyString => None (* pattern must not end with the escape *)
        | String d p'' => cons (Lit d) <$> like_tokens p''
        end
      else if bool_decide (c = "%"%char) then cons AnySeq <$> like_tokens p'
      else if bool_decide (c = "_"%char) then cons AnyChar <$> like_tokens p'
      else cons (Lit c) <$> like_tokens p'
  end.

Fixpoint like_match (ts : list like_tok) (s : string) : bool :=
  match ts with
  | [] => bool_decide (s = EmptyString)
  | AnySeq :: ts' =>
      (fix skip (s : string) : bool :=
         like_match ts' s ||
         match s with
         | EmptyString => false
         | String _ s' => skip s'
         end) s
  | AnyChar :: ts' =>
      match s with
      | EmptyString => false
      | String _ s' => like_match ts' s'
      end
  | Lit c :: ts' =>
      match s with
      | EmptyString => false
      | String d s' => bool_decide (c = d) && like_match ts' s'
      end
  end.

(** [s LIKE p].  A pattern ending in a lone escape makes PostgreSQL raise
    when the matcher reaches it; the program only builds patterns that
    end in [%] (see [like_tokens_wrapped]), so that case is folded into
    "no match" here. *)
Definition like (s p : string) : bool :=
  match like_tokens p with
  | Some ts => like_match ts s
  | None => false
  end.

(** [s ILIKE p]: both sides are lower-cased, then matched. *)
Definition ilike (s p : string) : bool := like (lower s) (lower p).

(** [x ILIKE p] on a nullable value: NULL ILIKE p is NULL, which a WHERE
    clause does not accept. *)
Definition ilike_null (x : option string) (p : string) : bool :=
  match x with
  | Some s => ilike s p
  | None => false
  end.


(** A value none of whose characters LIKE reads specially. *)
Fixpoint plain (v : string) : bool :=
  match v with
  | EmptyString => true
  | String c v' =>
      negb (bool_decide (c = "\"%char)) && negb (bool_decide (c = "%"%char))
      && negb (bool_decide (c = "_"%char)) && plain v'
  end.

End Text.

(** ** The schema of [create_tables] *)

(** clients(client_id SERIAL PRIMARY KEY, first_name VARCHAR(50) NOT NULL,
    last_name VARCHAR(50) NOT NULL, email VARCHAR(100) UNIQUE NOT NULL,
    created_at TIMESTAMP DEFAULT CURRENT_TIMESTAMP) *)
Module Clients.
Record row := Row {
  client_id : Z;
  first_name : string;
  last_name : string;
  email : string;
  created_at : Z
}.

#[global] Instance row_eq_dec : EqDecision row.
Proof. solve_decision. Defined.
End Clients.

(** phones(phone_id SERIAL PRIMARY KEY, client_id INTEGER NOT NULL
    REFERENCES clients(client_id) ON DELETE CASCADE,
    phone_number VARCHAR(20) UNIQUE, created_at TIMESTAMP DEFAULT
    CURRENT_TIMESTAMP).  [phone_number] is nullable: [None] is NULL. *)
Module Phones.
Record row := Row {
  phone_id : Z;
  client_id : Z;
  phone_number : option string;
  created_at : Z
}.

#[global] Instance row_eq_dec : EqDecision row.
Proof. solve_decision. Defined.
End Phones.

(** The database: both tables in heap order, the two SERIAL sequences
    (the value the next nextval hands out) and the server clock. *)
Record database := Database {
  clients : list Clients.row;
  phones : list Phones.row;
  clients_client_id_seq : Z;
  phones_phone_id_seq : Z;
  current_timestamp : Z
}.

(** [create_tables] on a database that has neither table: CREATE TABLE IF
    NOT EXISTS makes both, empty, their sequences at 1; [t] is the time on
    the server.  On a database that has them it changes nothing. *)
Definition create_tables (t : Z) : database :=
  Database [] [] 1 1 t.

(** The subclasses of psycopg2.Error the statements can raise. *)
Inductive Error :=
| StringDataRightTruncation
| UniqueViolation
| ForeignKeyViolation
| SequenceGeneratorLimitExceeded.

Inductive outcome (A : Type) :=
| Done (a : A)
| Raised (e : Error).
Arguments Done {A} a.
Arguments Raised {A} e.

(** ** The SQL statements of the program *)

Module Sql.

(** A SERIAL column is INTEGER: its sequence stops at 2147483647. *)
Definition nextval (seq : Z) : option Z :=
  if bool_decide (seq ≤ 2147483647) then Some seq else None.

Definition with_clients_seq (v : Z) (d : database) : database :=
  Database (clients d) (phones d) v (phones_phone_id_seq d)
    (current_timestamp d).

Definition with_phones_seq (v : Z) (d : database) : database :=
  Database (clients d) (phones d) (clients_client_id_seq d) v
    (current_timestamp d).

Definition with_clients (cs : list Clients.row) (d : database) : database :=
  Database cs (phones d) (clients_client_id_seq d) (phones_phone_id_seq d)
    (current_timestamp d).

Definition with_phones (ps : list Phones.row) (d : database) : database :=
  Database (clients d) ps (clients_client_id_seq d) (phones_phone_id_seq d)
    (current_timestamp d).

(** SELECT client_id FROM clients WHERE client_id = %s *)
Definition select_client_id (client_id : Z) (d : database) : list Z :=
  Clients.client_id <$>
    filter (λ c, Clients.client_id c = client_id) (clients d).

(** SELECT first_name, last_name FROM clients WHERE client_id = %s *)
Definition select_client_name (client_id : Z) (d : database)
  : list (string * string) :=
  (λ c, (Clients.first_name c, Clients.last_name c)) <$>
    filter (λ c, Clients.client_id c = client_id) (clients d).

(** INSERT INTO clients (first_name, last_name, email)
    VALUES (%s, %s, %s) RETURNING client_id.
    The values are coerced to their columns first; then the default of
    client_id draws from the sequence (a draw is never given back); then
    the primary key and the UNIQUE email are checked. *)
Definition insert_client (first_name last_name email : string) (d : database)
  : outcome Z * database :=
  match Text.varchar 50 first_name, Text.varchar 50 last_name,
        Text.varchar 100 email with
  | Some fn, Some ln, Some em =>
      match nextval (clients_client_id_seq d) with
      | None => (Raised SequenceGeneratorLimitExceeded, d)
      | Some id =>
          let d1 := with_clients_seq (id + 1) d in
          if bool_decide (id ∈ Clients.client_id <$> clients d) then
            (Raised UniqueViolation, d1)
          else if bool_decide (em ∈ Clients.email <$> clients d) then
            (Raised UniqueViolation, d1)
          else
            (Done id,
             with_clients
               (clients d ++ [Clients.Row id fn ln em (current_timestamp d)])
               d1)
      end
  | _, _, _ => (Raised StringDataRightTruncation, d)
  end.

(** INSERT INTO phones (client_id, phone_number) VALUES (%s, %s)
    ON CONFLICT (phone_number) DO NOTHING RETURNING phone_id.
    Returns the rows of RETURNING: one id, or none when the number was
    already there. *)
Definition insert_phone (client_id : Z) (phone : string) (d : database)
  : outcome (list Z) * database :=
  match Text.varchar 20 phone with
  | None => (Raised StringDataRightTruncation, d)
  | Some ph =>
      match nextval (phones_phone_id_seq d) with
      | None => (Raised SequenceGeneratorLimitExceeded, d)
      | Some id =>
          let d1 := with_phones_seq (id + 1) d in
          if bool_decide (Some ph ∈ Phones.phone_number <$> phones d) then
            (Done [], d1)
          else if bool_decide (id ∈ Phones.phone_id <$> phones d) then
            (Raised UniqueViolation, d1)
          else if bool_decide
                    (client_id ∈ Clients.client_id <$> clients d) then
            (Done [id],
             with_phones
               (phones d ++
                  [Phones.Row id client_id (Some ph) (current_timestamp d)])
               d1)
          else (Raised ForeignKeyViolation, d1)
      end
  end.

(** The columns [update_client] can put in its SET list. *)
Inductive set_column := Set_first_name | Set_last_name | Set_email.

Definition width (col : set_column) : nat :=
  match col with
  | Set_first_name => 50%nat
  | Set_last_name => 50%nat
  | Set_email => 100%nat
  end.

Definition assign (c : Clients.row) (a : set_column * string) : Clients.row :=
  match a.1 with
  | Set_first_name =>
      Clients.Row (Clients.client_id c) a.2 (Clients.last_name c)
        (Clients.email c) (Clients.created_at c)
  | Set_last_name =>
      Clients.Row (Clients.client_id c) (Clients.first_name c) a.2
        (Clients.email c) (Clients.created_at c)
  | Set_email =>
      Clients.Row (Clients.client_id c) (Clients.first_name c)
        (Clients.last_name c) a.2 (Clients.created_at c)
  end.

(** Each bound value coerced to the column it is assigned to. *)
Definition coerce (a : set_column * string) : option (set_column * string) :=
  pair a.1 <$> Text.varchar (width a.1) a.2.

(** UPDATE clients SET col = %s, ... WHERE client_id = %s, the SET list
    being [update_fields] and the bound values [values], in order. *)
Definition update_clients (update_fields : list set_column)
    (values : list string) (client_id : Z) (d : database)
  : outcome unit * database :=
  match mapM coerce (zip update_fields values) with
  | None => (Raised StringDataRightTruncation, d)
  | Some sets =>
      let rows :=
        (λ c, if bool_decide (Clients.client_id c = client_id)
              then foldl assign c sets else c) <$> clients d in
      if bool_decide (NoDup (Clients.email <$> rows)) then
        (Done (), with_clients rows d)
      else (Raised UniqueViolation, d)
  end.

(** DELETE FROM phones WHERE client_id = %s AND phone_number = %s
    RETURNING phone_id *)
Definition delete_phone (client_id : Z) (phone : string) (d : database)
  : list Z * database :=
  let hit p :=
    Phones.client_id p = client_id ∧ Phones.phone_number p = Some phone in
  (Phones.phone_id <$> filter hit (phones d),
   with_phones (filter (λ p, ¬ hit p) (phones d)) d).

(** DELETE FROM clients WHERE client_id = %s.  ON DELETE CASCADE takes
    the phone rows that reference a deleted client with it. *)
Definition delete_client (client_id : Z) (d : database) : database :=
  let gone := filter (λ c, Clients.client_id c = client_id) (clients d) in
  with_phones
    (filter (λ p, Phones.client_id p ∉ Clients.client_id <$> gone) (phones d))
    (with_clients
       (filter (λ c, Clients.client_id c ≠ client_id) (clients d)) d).

(** A row of clients c LEFT JOIN phones p ON c.client_id = p.client_id:
    the client and its phone row, or no phone row (all p columns NULL). *)
Definition joined : Type := Clients.row * option Phones.row.

(** The rows the join makes for one client: one for each phone row of the
    client, or a single one without phone row when there is none. *)
Definition joined_rows (c : Clients.row) (ps : list Phones.row)
  : list joined :=
  match filter (λ p, Clients.client_id c = Phones.client_id p) ps with
  | [] => [(c, None)]
  | p :: ps' => pair c ∘ Some <$> p :: ps'
  end.

Definition left_join (cs : list Clients.row) (ps : list Phones.row)
  : list joined :=
  c ← cs; joined_rows c ps.

(** p.phone_number of a joined row. *)
Definition p_phone_number (j : joined) : option string :=
  j.2 ≫= Phones.phone_number.

(** The columns [find_client] can put in its WHERE clause. *)
Inductive where_column :=
| C_first_name | C_last_name | C_email | P_phone_number.

Definition column (col : where_column) (j : joined) : option string :=
  match col with
  | C_first_name => Some (Clients.first_name j.1)
  | C_last_name => Some (Clients.last_name j.1)
  | C_email => Some (Clients.email j.1)
  | P_phone_number => p_phone_number j
  end.

(** WHERE col ILIKE %s AND col ILIKE %s ..., the conjuncts being
    [conditions] and the bound patterns [values], in order. *)
Definition where_ilike (conditions : list where_column)
    (values : list string) (j : joined) : bool :=
  forallb (λ cv, Text.ilike_null (column cv.1 j) cv.2) (zip conditions values).

(** GROUP BY: the rows are put in one group per value of the key, the rows
    of a group keeping their order. *)
Fixpoint group_add {K V} `{EqDecision K} (k : K) (v : V)
    (groups : list (K * list V)) : list (K * list V) :=
  match groups with
  | [] => [(k, [v])]
  | g :: groups' =>
      if decide (k = g.1) then (g.1, v :: g.2) :: groups'
      else g :: group_add k v groups'
  end.

Definition group_by {K V} `{EqDecision K} (key : V → K) (rows : list V)
  : list (K * list V) :=
  foldr (λ r groups, group_add (key r) r groups) [] rows.

(** ARRAY_AGG over the values of a group: NULL ([None]) over no value, the
    array of the values, NULLs included, otherwise. *)
Definition array_agg (values : list (option string))
  : option (list (option string)) :=
  match values with
  | [] => None
  | _ :: _ => Some values
  end.

(** A result row of the three client queries: c.client_id, c.first_name,
    c.last_name, c.email, c.created_at (the client row) and phones. *)
Definition client_record : Type := Clients.row * option (list (option string)).

Definition by_client_id (r1 r2 : client_record) : Prop :=
  Clients.client_id r1.1 ≤ Clients.client_id r2.1.

#[global] Instance by_client_id_dec : RelDecision by_client_id.
Proof. intros r1 r2. unfold by_client_id. apply _. Defined.

(** ORDER BY c.client_id *)
Definition order_by_client_id (rows : list client_record) : list client_record :=
  merge_sort by_client_id rows.

(** SELECT DISTINCT c.client_id, c.first_name, c.last_name, c.email,
      c.created_at,
      ARRAY_AGG(p.phone_number) FILTER (WHERE p.phone_number IS NOT NULL)
    FROM clients c LEFT JOIN phones p ON c.client_id = p.client_id
    WHERE <conditions>
    GROUP BY c.client_id, c.first_name, c.last_name, c.email, c.created_at
    ORDER BY c.client_id.
    The GROUP BY list is the whole client row. *)
Definition select_find (conditions : list where_column)
    (values : list string) (d : database) : list client_record :=
  let rows := left_join (clients d) (phones d) in
  let rows := filter (λ j, where_ilike conditions values j) rows in
  let groups := group_by fst rows in
  let rows :=
    (λ g, (g.1, array_agg (filter is_Some (p_phone_number <$> g.2))))
      <$> groups in
  order_by_client_id (remove_dups rows).

(** SELECT c.client_id, c.first_name, c.last_name, c.email, c.created_at,
      ARRAY_AGG(p.phone_number)
    FROM clients c LEFT JOIN phones p ON c.client_id = p.client_id
    WHERE c.client_id = %s
    GROUP BY c.client_id, c.first_name, c.last_name, c.email, c.created_at *)
Definition select_client_info (client_id : Z) (d : database)
  : list client_record :=
  let rows := left_join (clients d) (phones d) in
  let rows := filter (λ j : joined, Clients.client_id j.1 = client_id) rows in
  let groups := group_by fst rows in
  (λ g, (g.1, array_agg (p_phone_number <$> g.2))) <$> groups.

(** SELECT c.client_id, c.first_name, c.last_name, c.email, c.created_at,
      ARRAY_AGG(p.phone_number)
    FROM clients c LEFT JOIN phones p ON c.client_id = p.client_id
    GROUP BY c.client_id, c.first_name, c.last_name, c.email, c.created_at
    ORDER BY c.client_id *)
Definition select_all_clients (d : database) : list client_record :=
  let rows := left_join (clients d) (phones d) in
  let groups := group_by fst rows in
  order_by_client_id
    ((λ g, (g.1, array_agg (p_phone_number <$> g.2))) <$> groups).

End Sql.


(** ** The connection *)

(** What [self.cursor.execute] is called with, by the type of what the
    fetch after it yields: the rows of a SELECT or of a RETURNING clause,
    the one id of the INSERT into clients, nothing for a bare UPDATE or
    DELETE. *)
Inductive statement : Type → Type :=
| SELECT_client_id (client_id : Z) : statement (list Z)
| SELECT_client_name (client_id : Z) : statement (list (string * string))
| INSERT_client (first_name last_name email : string) : statement Z
| INSERT_phone (client_id : Z) (phone : string) : statement (list Z)
| UPDATE_clients (update_fields : list Sql.set_column)
    (values : list string) (client_id : Z) : statement unit
| DELETE_phone (client_id : Z) (phone : string) : statement (list Z)
| DELETE_client (client_id : Z) : statement unit
| SELECT_find (conditions : list Sql.where_column) (values : list string)
  : statement (list Sql.client_record)
| SELECT_client_info (client_id : Z) : statement (list Sql.client_record)
| SELECT_all_clients : statement (list Sql.client_record).

(** A statement that reads only. *)
Definition query {A} (q : database → A) (d : database)
  : outcome A * database :=
  (Done (q d), d).

(** What the server does with a statement. *)
Definition perform {A} (st : statement A) (d : database)
  : outcome A * database :=
  match st with
  | SELECT_client_id client_id => query (Sql.select_client_id client_id) d
  | SELECT_client_name client_id =>
      query (Sql.select_client_name client_id) d
  | INSERT_client first_name last_name email =>
      Sql.insert_client first_name last_name email d
  | INSERT_phone client_id phone => Sql.insert_phone client_id phone d
  | UPDATE_clients update_fields values client_id =>
      Sql.update_clients update_fields values client_id d
  | DELETE_phone client_id phone =>
      let r := Sql.delete_phone client_id phone d in (Done r.1, r.2)
  | DELETE_client client_id => (Done (), Sql.delete_client client_id d)
  | SELECT_find conditions values =>
      query (Sql.select_find conditions values) d
  | SELECT_client_info client_id =>
      query (Sql.select_client_info client_id) d
  | SELECT_all_clients => query Sql.select_all_clients d
  end.

(** An entry of the statement log. *)
Definition sent {A} (st : statement A) : sigT statement := existT A st.

(** A connection in autocommit mode: the database behind it and the
    statements executed so far, oldest first. *)
Record session := Session {
  db : database;
  executed : list (sigT statement)
}.

(** Code inside a [try] block: it runs on the session and either yields a
    value or raises a psycopg2 error. *)
Definition cursor (A : Type) : Type := session → outcome A * session.

#[global] Instance cursor_ret : MRet cursor :=
  λ A (a : A) s, (Done a, s).

#[global] Instance cursor_bind : MBind cursor :=
  λ A B (k : A → cursor B) (m : cursor A) s,
    match m s with
    | (Done a, s') => k a s'
    | (Raised e, s') => (Raised e, s')
    end.

(** [self.cursor.execute(st)] followed by the fetch of its rows. *)
Definition execute {A} (st : statement A) : cursor A :=
  λ s, let r := perform st (db s) in
       (r.1, Session r.2 (executed s ++ [sent st])).

(** [try: body except Error: return handler]. *)
Definition try_except {A} (body : cursor A) (handler : Error → A)
  : session → A * session :=
  λ s, match body s with
       | (Done a, s') => (a, s')
       | (Raised e, s') => (handler e, s')
       end.

(** A call of another method of the class. *)
Definition call {A} (method : session → A * session) : cursor A :=
  λ s, let r := method s in (Done r.1, r.2).

(** [for x in xs: body(x)] *)
Fixpoint for_each {A B} (xs : list A) (body : A → cursor B) : cursor unit :=
  match xs with
  | [] => mret ()
  | x :: xs' => _ ← body x; for_each xs' body
  end.

(** The dict the three read methods build for a client. *)
Module Client.
Record dict := Dict {
  client_id : Z;
  first_name : string;
  last_name : string;
  email : string;
  created_at : Z;
  phones : list (option string)
}.

#[global] Instance dict_eq_dec : EqDecision dict.
Proof. solve_decision. Defined.
End Client.

(** ** The methods of ClientDatabase *)

(** [fetchone()] *)
Definition fetchone {A} (rows : list A) : option A := head rows.

Definition add_phone (client_id : Z) (phone : string)
  : session → bool * session :=
  try_except
    (found ← execute (SELECT_client_id client_id);
     match fetchone found with
     | None => mret false
     | Some _ =>
         rows ← execute (INSERT_phone client_id phone);
         match fetchone rows with
         | Some _ => mret true
         | None => mret false
         end
     end)
    (λ _, false).

Definition add_client (first_name last_name email : string)
    (phones : option (list string)) : session → Z * session :=
  try_except
    (client_id ← execute (INSERT_client first_name last_name email);
     _ ← for_each (default [] phones)
           (λ phone, call (add_phone client_id phone));
     mret client_id)
    (λ _, -1).

(** The keyword arguments of a call: a dict from names to values. *)
Abbreviation kwargs := (gmap string string).

(** [if name in kwargs: fields.append(col); values.append(f(kwargs[name]))],
    on the pair of lists the method builds. *)
Definition append_if {C} (kw : kwargs) (name : string) (col : C)
    (f : string → string) (acc : list C * list string)
  : list C * list string :=
  match kw !! name with
  | Some v => (acc.1 ++ [col], acc.2 ++ [f v])
  | None => acc
  end.

Definition update_client (client_id : Z) (kw : kwargs)
  : session → bool * session :=
  try_except
    (found ← execute (SELECT_client_id client_id);
     match fetchone found with
     | None => mret false
     | Some _ =>
         let acc := ([], []) in
         let acc := append_if kw "first_name" Sql.Set_first_name id acc in
         let acc := append_if kw "last_name" Sql.Set_last_name id acc in
         let acc := append_if kw "email" Sql.Set_email id acc in
         let '(update_fields, values) := acc in
         match update_fields with
         | [] => mret false
         | _ :: _ =>
             _ ← execute (UPDATE_clients update_fields values client_id);
             mret true
         end
     end)
    (λ _, false).

Definition delete_phone (client_id : Z) (phone : string)
  : session → bool * session :=
  try_except
    (found ← execute (SELECT_client_id client_id);
     match fetchone found with
     | None => mret false
     | Some _ =>
         rows ← execute (DELETE_phone client_id phone);
         match fetchone rows with
         | Some _ => mret true
         | None => mret false
         end
     end)
    (λ _, false).

Definition delete_client (client_id : Z) : session → bool * session :=
  try_except
    (found ← execute (SELECT_client_name client_id);
     match fetchone found with
     | None => mret false
     | Some client_info =>
         _ ← execute (DELETE_client client_id);
         mret true
     end)
    (λ _, false).

(** [row[5] if row[5] else []]: None and the empty list are falsy. *)
Definition phones_or_empty (x : option (list (option string)))
  : list (option string) :=
  match x with
  | Some (p :: ps) => p :: ps
  | _ => []
  end.

(** The dict built from a result row. *)
Definition client_of_row (row : Sql.client_record) : Client.dict :=
  Client.Dict (Clients.client_id row.1) (Clients.first_name row.1)
    (Clients.last_name row.1) (Clients.email row.1)
    (Clients.created_at row.1) (phones_or_empty row.2).

(** f"%{value}%" *)
Definition percent (value : string) : string := "%" +:+ value +:+ "%".

Definition find_client (kw : kwargs) : session → list Client.dict * session :=
  try_except
    (let acc := ([], []) in
     let acc := append_if kw "first_name" Sql.C_first_name percent acc in
     let acc := append_if kw "last_name" Sql.C_last_name percent acc in
     let acc := append_if kw "email" Sql.C_email percent acc in
     let acc := append_if kw "phone" Sql.P_phone_number percent acc in
     let '(conditions, values) := acc in
     match conditions with
     | [] => mret []
     | _ :: _ =>
         results ← execute (SELECT_find conditions values);
         mret (client_of_row <$> results)
     end)
    (λ _, []).

Definition get_client_info (client_id : Z)
  : session → option Client.dict * session :=
  try_except
    (rows ← execute (SELECT_client_info client_id);
     match fetchone rows with
     | Some result => mret (Some (client_of_row result))
     | None => mret None
     end)
    (λ _, None).

Definition get_all_clients : session → list Client.dict * session :=
  try_except
    (results ← execute SELECT_all_clients;
     mret (client_of_row <$> results))
    (λ _, []).

(** ** The demonstration data, on a small scale *)

Definition connect : session := Session (create_tables 0) [].

Definition demo : session :=
  let s := connect in
  let s := (add_client "Ivan" "Ivanov" "ivanov@example.com"
              (Some ["+79161234567"; "+74951234567"]) s).2 in
  let s := (add_client "Petr" "Petrov" "petrov@example.com"
              (Some ["+79169876543"]) s).2 in
  let s := (add_client "Maria" "Sidorova" "sidorova@example.com" None s).2 in
  s.



(** ** The invariant of the schema *)

(** What the constraints of the DDL keep true of the two tables, and what
    SERIAL keeps true of the sequences. *)
Record wf (d : database) : Prop := Wf {
  wf_client_id_pk : NoDup (Clients.client_id <$> clients d);
  wf_email_unique : NoDup (Clients.email <$> clients d);
  wf_first_name_width :
    Forall (λ c, (String.length (Clients.first_name c) ≤ 50)%nat) (clients d);
  wf_last_name_width :
    Forall (λ c, (String.length (Clients.last_name c) ≤ 50)%nat) (clients d);
  wf_email_width :
    Forall (λ c, (String.length (Clients.email c) ≤ 100)%nat) (clients d);
  wf_phone_id_pk : NoDup (Phones.phone_id <$> phones d);
  wf_phone_number_unique : NoDup (omap Phones.phone_number (phones d));
  wf_phone_number_width :
    Forall (λ p, ∀ n, Phones.phone_number p = Some n →
                      (String.length n ≤ 20)%nat) (phones d);
  wf_phones_fk :
    Forall (λ p, Phones.client_id p ∈ Clients.client_id <$> clients d)
      (phones d);
  wf_clients_seq_min : 1 ≤ clients_client_id_seq d;
  wf_clients_seq :
    Forall (λ c, 1 ≤ Clients.client_id c < clients_client_id_seq d) (clients d);
  wf_phones_seq_min : 1 ≤ phones_phone_id_seq d;
  wf_phones_seq :
    Forall (λ p, 1 ≤ Phones.phone_id p < phones_phone_id_seq d) (phones d)
}.

(** A client row within the widths of its columns. *)
Definition row_fits (c : Clients.row) : Prop :=
  (String.length (Clients.first_name c) ≤ 50)%nat ∧
  (String.length (Clients.last_name c) ≤ 50)%nat ∧
  (String.length (Clients.email c) ≤ 100)%nat.

(** ** Runs of the program *)

(** A call of a method, or the server clock moving on. *)
Inductive operation :=
| Add_client (first_name last_name email : string)
    (phones : option (list string))
| Add_phone (client_id : Z) (phone : string)
| Update_client (client_id : Z) (kw : kwargs)
| Delete_phone (client_id : Z) (phone : string)
| Delete_client (client_id : Z)
| Find_client (kw : kwargs)
| Get_client_info (client_id : Z)
| Get_all_clients
| Clock (t : Z).

Definition run (o : operation) (s : session) : session :=
  match o with
  | Add_client fn ln em ps => (add_client fn ln em ps s).2
  | Add_phone id ph => (add_phone id ph s).2
  | Update_client id kw => (update_client id kw s).2
  | Delete_phone id ph => (delete_phone id ph s).2
  | Delete_client id => (delete_client id s).2
  | Find_client kw => (find_client kw s).2
  | Get_client_info id => (get_client_info id s).2
  | Get_all_clients => (get_all_clients s).2
  | Clock t =>
      Session
        (Database (clients (db s)) (phones (db s))
           (clients_client_id_seq (db s)) (phones_phone_id_seq (db s)) t)
        (executed s)
  end.

(** The sessions the program can be in: it connects, creates the tables
    on an empty database, and calls methods. *)
Inductive reachable : session → Prop :=
| reachable_connect t : reachable (Session (create_tables t) [])
| reachable_run o s : reachable s → reachable (run o s).

(** ** The specification's vocabulary *)

(** The complete list of a client's phone numbers. *)
Definition phone_numbers_of (client_id : Z) (d : database)
  : list (option string) :=
  Phones.phone_number <$>
    filter (λ p, Phones.client_id p = client_id) (phones d).






(** Every supplied filter value is free of the characters LIKE reads
    specially (backslash, percent sign, underscore). *)
Definition plain_filters (kw : kwargs) : Prop :=
  ∀ name v,
    name ∈ ["first_name"; "last_name"; "email"; "phone"] →
    kw !! name = Some v → Text.plain v = true.

(** ** Auxiliary definitions of the proofs *)

(** The loop of [add_client] over the phones it was given. *)
Definition add_phones (client_id : Z) (phones : list string) (s : session)
  : session :=
  foldl (λ s phone, (add_phone client_id phone s).2) s phones.

(** The SET list and the values [update_client] builds from its keywords. *)
Definition update_lists (kw : kwargs) : list Sql.set_column * list string :=
  append_if kw "email" Sql.Set_email id
    (append_if kw "last_name" Sql.Set_last_name id
       (append_if kw "first_name" Sql.Set_first_name id ([], []))).

(** The WHERE list and the patterns [find_client] builds from its keywords. *)
Definition find_lists (kw : kwargs) : list Sql.where_column * list string :=
  append_if kw "phone" Sql.P_phone_number percent
    (append_if kw "email" Sql.C_email percent
       (append_if kw "last_name" Sql.C_last_name percent
          (append_if kw "first_name" Sql.C_first_name percent ([], [])))).


(** ** Showing the clients *)

(** [sep.join(items)]: the items with [sep] between them.  An item that is
    None and not a str makes it raise TypeError: that is [None] here. *)
Fixpoint join (sep : string) (items : list (option string)) : option string :=
  match items with
  | [] => Some EmptyString
  | [Some x] => Some x
  | Some x :: rest => (λ r, x +:+ sep +:+ r) <$> join sep rest
  | None :: _ => None
  end.

(** What a method has printed, one entry for each call of print, and
    whether it ended by a TypeError, which no method catches. *)
Record output := Output {
  printed : list string;
  raised_TypeError : bool
}.

(** '=' * 60 *)
Definition bar : string :=
  "============================================================".

(** The line feed of the f-strings that start with one. *)
Definition line_feed : string := String "010" EmptyString.

Section show.

(** [created_at.strftime('%d.%m.%Y %H:%M')], which the model of time as a
    number cannot compute. *)
Variable strftime : Z → string.

(** The body of the loop of [show_all_clients] for the [i]-th client:
    five prints, the fourth of which joins the phones and may raise after
    the first three went out. *)
Definition show_client (i : nat) (client : Client.dict) : output :=
  let first :=
    [line_feed +:+ pretty i +:+ ". " +:+ Client.first_name client +:+ " "
       +:+ Client.last_name client;
     "   ID: " +:+ pretty (Client.client_id client);
     "   Email: " +:+ Client.email client] in
  match match Client.phones client with
        | [] => Some "нет телефонов"
        | _ :: _ => join ", " (Client.phones client)
        end with
  | None => Output first true
  | Some text =>
      Output
        (first ++ ["   Телефоны: " +:+ text;
                   "   Зарегистрирован: "
                     +:+ strftime (Client.created_at client)])
        false
  end.

(** [for i, client in enumerate(clients, i): ...] *)
Fixpoint show_clients (i : nat) (clients : list Client.dict) : output :=
  match clients with
  | [] => Output [] false
  | client :: rest =>
      let o := show_client i client in
      if raised_TypeError o then o
      else
        let o' := show_clients (S i) rest in
        Output (printed o ++ printed o') (raised_TypeError o')
  end.

Definition show_all_clients (s : session) : output * session :=
  let r := get_all_clients s in
  let clients := r.1 in
  let first :=
    [line_feed +:+ bar;
     "ВСЕ КЛИЕНТЫ В БАЗЕ (всего: " +:+ pretty (length clients) +:+ ")";
     bar] in
  match clients with
  | [] => (Output (first ++ ["В базе нет клиентов"]) false, r.2)
  | _ :: _ =>
      let o := show_clients 1 clients in
      (Output (first ++ printed o) (raised_TypeError o), r.2)
  end.

End show.

(** ** More vocabulary *)

(** The phones a client is shown with by [get_client_info] and
    [get_all_clients]: its numbers, or one null when it has no phone. *)
Definition listed_phones (client_id : Z) (d : database)
  : list (option string) :=
  match phone_numbers_of client_id d with
  | [] => [None]
  | n :: ns => n :: ns
  end.

(** The dict of client [c] in those two methods. *)
Definition listed (d : database) (c : Clients.row) : Client.dict :=
  Client.Dict (Clients.client_id c) (Clients.first_name c)
    (Clients.last_name c) (Clients.email c) (Clients.created_at c)
    (listed_phones (Clients.client_id c) d).

(** A sequence of calls, first to last. *)
Definition runs (os : list operation) (s : session) : session :=
  foldl (λ s o, run o s) s os.

(** No phone row has a NULL number. *)
Definition numbers_present (d : database) : Prop :=
  Forall (λ p, is_Some (Phones.phone_number p)) (phones d).

(** * Verification *)

(** Closed decidable facts are settled by evaluation. *)
Ltac by_computation := apply (bool_decide_unpack _); vm_compute; exact I.

(** ** Calls with nothing to do *)

Lemma append_if_absent {C} (kw : kwargs) name (col : C) f acc :
  kw !! name = None → append_if kw name col f acc = acc.
Proof. intros H. unfold append_if. by rewrite H. Qed.

Lemma find_client_without_filters (kw : kwargs) (s : session) :
  kw !! "first_name" = None → kw !! "last_name" = None →
  kw !! "email" = None → kw !! "phone" = None →
  find_client kw s = ([], s).
Proof.
  intros H1 H2 H3 H4. unfold find_client.
  by rewrite !append_if_absent.
Qed.

Lemma update_client_without_fields (kw : kwargs) (client_id : Z) (s : session) :
  kw !! "first_name" = None → kw !! "last_name" = None →
  kw !! "email" = None →
  update_client client_id kw s
  = (false, Session (db s) (executed s ++ [sent (SELECT_client_id client_id)])).
Proof.
  intros H1 H2 H3. unfold update_client. rewrite !append_if_absent by done.
  unfold try_except, mbind, cursor_bind, execute, perform, query. simpl.
  by destruct (fetchone _).
Qed.

(** C9: with no filter at all [find_client] answers the empty list and
    sends nothing through the cursor: the session, database and statement
    log alike, is the one it was called on, whatever the tables hold. *)
Theorem find_client_no_filters (s : session) :
  find_client ∅ s = ([], s).
Proof. apply find_client_without_filters; apply lookup_empty. Qed.

(** C8: with an empty field mapping [update_client] answers False; the only
    statement it sends is the SELECT that looks the client up, never an
    UPDATE, and the database is left as it was. *)
Theorem update_client_no_fields (client_id : Z) (s : session) :
  update_client client_id ∅ s
  = (false, Session (db s) (executed s ++ [sent (SELECT_client_id client_id)])).
Proof. apply update_client_without_fields; apply lookup_empty. Qed.

Lemma append_if_ext {C} (kw kw' : kwargs) name (col : C) f acc :
  kw !! name = kw' !! name →
  append_if kw name col f acc = append_if kw' name col f acc.
Proof. intros H. unfold append_if. by rewrite H. Qed.

Lemma update_client_ext (kw kw' : kwargs) (client_id : Z) (s : session) :
  kw !! "first_name" = kw' !! "first_name" →
  kw !! "last_name" = kw' !! "last_name" →
  kw !! "email" = kw' !! "email" →
  update_client client_id kw s = update_client client_id kw' s.
Proof.
  intros H1 H2 H3. unfold update_client.
  by rewrite !(append_if_ext kw kw').
Qed.

Lemma find_client_ext (kw kw' : kwargs) (s : session) :
  kw !! "first_name" = kw' !! "first_name" →
  kw !! "last_name" = kw' !! "last_name" →
  kw !! "email" = kw' !! "email" →
  kw !! "phone" = kw' !! "phone" →
  find_client kw s = find_client kw' s.
Proof.
  intros H1 H2 H3 H4. unfold find_client.
  by rewrite !(append_if_ext kw kw').
Qed.

(** C10: a keyword whose name the method does not know changes nothing:
    adding it to a call of [update_client] (names other than first_name,
    last_name, email) or of [find_client] (names other than those and
    phone) gives the same answer and the same session.  A call with
    unknown names only is the call with no keyword: [update_client]
    answers False, [find_client] answers the empty list, and the database
    is left as it was. *)
Theorem unrecognized_names_ignored :
  (∀ (kw : kwargs) name value client_id s,
     name ∉ ["first_name"; "last_name"; "email"] →
     update_client client_id (<[name := value]> kw) s
     = update_client client_id kw s) ∧
  (∀ (kw : kwargs) name value s,
     name ∉ ["first_name"; "last_name"; "email"; "phone"] →
     find_client (<[name := value]> kw) s = find_client kw s) ∧
  (∀ (kw : kwargs) client_id s,
     (∀ name, name ∈ ["first_name"; "last_name"; "email"] →
              kw !! name = None) →
     update_client client_id kw s = update_client client_id ∅ s ∧
     (update_client client_id kw s).1 = false ∧
     db (update_client client_id kw s).2 = db s) ∧
  (∀ (kw : kwargs) s,
     (∀ name, name ∈ ["first_name"; "last_name"; "email"; "phone"] →
              kw !! name = None) →
     find_client kw s = find_client ∅ s ∧
     find_client kw s = ([], s)).
Proof.
  split_and!.
  - intros kw name value client_id s Hname.
    apply update_client_ext; apply lookup_insert_ne; intros ->;
      apply Hname; by_computation.
  - intros kw name value s Hname.
    apply find_client_ext; apply lookup_insert_ne; intros ->;
      apply Hname; by_computation.
  - intros kw client_id s Hkw.
    rewrite (update_client_without_fields kw) by (apply Hkw; by_computation).
    by rewrite (update_client_without_fields ∅) by apply lookup_empty.
  - intros kw s Hkw.
    rewrite (find_client_without_filters kw) by (apply Hkw; by_computation).
    by rewrite (find_client_without_filters ∅) by apply lookup_empty.
Qed.

Lemma unrecognized_names_ignored_witness :
  update_client 1 (<["age" := "42"]> {["email" := "i@example.com"]}) demo
  = update_client 1 {["email" := "i@example.com"]} demo ∧
  find_client {["age" := "42"]} demo = ([], demo).
Proof.
  destruct unrecognized_names_ignored as (Hu & _ & _ & Hf). split.
  - apply Hu. by_computation.
  - apply Hf. intros name Hname. apply lookup_singleton_ne.
    intros <-. revert Hname. by_computation.
Defined.

(** ** The statements keep the invariant *)

Lemma take_length n s : (String.length (Text.take n s) ≤ n)%nat.
Proof.
  revert s. induction n as [|n IH]; intros [|c s]; simpl; try lia.
  specialize (IH s). lia.
Qed.

Lemma varchar_width n s s' :
  Text.varchar n s = Some s' → (String.length s' ≤ n)%nat.
Proof.
  unfold Text.varchar. case_bool_decide.
  - by intros [= <-].
  - destruct (Text.all_spaces _); [|done]. intros [= <-]. apply take_length.
Qed.

Lemma varchar_fits n s :
  (String.length s ≤ n)%nat → Text.varchar n s = Some s.
Proof. intros H. unfold Text.varchar. by rewrite bool_decide_eq_true_2. Qed.

Lemma create_tables_wf t : wf (create_tables t).
Proof. constructor; simpl; try constructor; lia. Qed.

Lemma nextval_Some seq id : Sql.nextval seq = Some id → id = seq.
Proof. unfold Sql.nextval. case_bool_decide; congruence. Qed.

Lemma with_clients_seq_wf d v :
  wf d → clients_client_id_seq d ≤ v → wf (Sql.with_clients_seq v d).
Proof.
  intros Hwf Hv. constructor; simpl; try apply Hwf.
  - pose proof (wf_clients_seq_min _ Hwf). lia.
  - eapply Forall_impl; [apply (wf_clients_seq _ Hwf)|]. simpl. lia.
Qed.

Lemma with_phones_seq_wf d v :
  wf d → phones_phone_id_seq d ≤ v → wf (Sql.with_phones_seq v d).
Proof.
  intros Hwf Hv. constructor; simpl; try apply Hwf.
  - pose proof (wf_phones_seq_min _ Hwf). lia.
  - eapply Forall_impl; [apply (wf_phones_seq _ Hwf)|]. simpl. lia.
Qed.

Lemma NoDup_snoc {A} (l : list A) x : NoDup l → x ∉ l → NoDup (l ++ [x]).
Proof.
  intros Hl Hx. apply NoDup_app. split_and!; [done| |apply NoDup_singleton].
  by intros y Hy ->%list_elem_of_singleton.
Qed.

Lemma Forall_snoc {A} (P : A → Prop) l x :
  Forall P l → P x → Forall P (l ++ [x]).
Proof. intros Hl Hx. apply Forall_app. by rewrite Forall_singleton. Qed.

Lemma insert_client_wf fn ln em d :
  wf d → wf (Sql.insert_client fn ln em d).2.
Proof.
  intros Hwf. unfold Sql.insert_client.
  destruct (Text.varchar 50 fn) as [fn'|] eqn:Hfn; [|done].
  destruct (Text.varchar 50 ln) as [ln'|] eqn:Hln; [|done].
  destruct (Text.varchar 100 em) as [em'|] eqn:Hem; [|done].
  destruct (Sql.nextval _) as [id|] eqn:Hid; [|done].
  apply nextval_Some in Hid as ->.
  assert (wf (Sql.with_clients_seq (clients_client_id_seq d + 1) d)) as Hwf1
    by (apply with_clients_seq_wf; [done|lia]).
  case_bool_decide as Hpk; [done|]. case_bool_decide as Huq; [done|].
  pose proof (wf_clients_seq_min _ Hwf).
  constructor; simpl; try apply Hwf.
  - rewrite fmap_app. apply NoDup_snoc; [apply Hwf|done].
  - rewrite fmap_app. apply NoDup_snoc; [apply Hwf|done].
  - apply Forall_snoc; [apply Hwf|]. simpl. by eapply varchar_width.
  - apply Forall_snoc; [apply Hwf|]. simpl. by eapply varchar_width.
  - apply Forall_snoc; [apply Hwf|]. simpl. by eapply varchar_width.
  - eapply Forall_impl; [apply (wf_phones_fk _ Hwf)|]. simpl. intros p Hp.
    rewrite fmap_app. apply elem_of_app. by left.
  - lia.
  - apply Forall_snoc; simpl; [|lia].
    eapply Forall_impl; [apply (wf_clients_seq _ Hwf)|]. simpl. lia.
Qed.

Lemma elem_of_omap_fmap {A B} (f : A → option B) (l : list A) y :
  y ∈ omap f l ↔ Some y ∈ f <$> l.
Proof.
  rewrite list_elem_of_omap, list_elem_of_fmap.
  split; intros (x & H1 & H2); exists x; by split.
Qed.

Lemma NoDup_fmap_filter {A B} (f : A → B) (P : A → Prop)
    `{!∀ x, Decision (P x)} (l : list A) :
  NoDup (f <$> l) → NoDup (f <$> filter P l).
Proof.
  intros Hnd. eapply sublist_NoDup; [exact Hnd|].
  apply fmap_sublist, sublist_filter.
Qed.

Lemma NoDup_omap_filter {A B} (f : A → option B) (P : A → Prop)
    `{!∀ x, Decision (P x)} (l : list A) :
  NoDup (omap f l) → NoDup (omap f (filter P l)).
Proof.
  induction l as [|x l IH]; [done|]. rewrite filter_cons. simpl.
  destruct (f x) as [y|] eqn:Hy.
  - intros [Hnot Hnd]%NoDup_cons. destruct (decide (P x)); [|by apply IH].
    simpl. rewrite Hy. apply NoDup_cons. split; [|by apply IH].
    intros Hin. apply Hnot. apply list_elem_of_omap in Hin as (z & Hz & Hfz).
    apply list_elem_of_omap. exists z. split; [|done].
    by apply list_elem_of_filter in Hz as [_ ?].
  - intros Hnd. destruct (decide (P x)); [|by apply IH].
    simpl. rewrite Hy. by apply IH.
Qed.

Lemma Forall_filter_sub {A} (P Q : A → Prop) `{!∀ x, Decision (P x)} l :
  Forall Q l → Forall Q (filter P l).
Proof.
  rewrite !Forall_forall. intros HQ x [_ Hx]%list_elem_of_filter.
  by apply HQ.
Qed.

Lemma insert_phone_wf client_id phone d :
  wf d → wf (Sql.insert_phone client_id phone d).2.
Proof.
  intros Hwf. unfold Sql.insert_phone.
  destruct (Text.varchar 20 phone) as [ph|] eqn:Hph; [|done].
  destruct (Sql.nextval _) as [id|] eqn:Hid; [|done].
  apply nextval_Some in Hid as ->.
  assert (wf (Sql.with_phones_seq (phones_phone_id_seq d + 1) d)) as Hwf1
    by (apply with_phones_seq_wf; [done|lia]).
  case_bool_decide as Hdup; [done|]. case_bool_decide as Hpk; [done|].
  case_bool_decide as Hfk; [|done].
  pose proof (wf_phones_seq_min _ Hwf).
  constructor; simpl; try apply Hwf.
  - rewrite fmap_app. apply NoDup_snoc; [apply Hwf|done].
  - rewrite omap_app. simpl. apply NoDup_snoc; [apply Hwf|].
    by rewrite elem_of_omap_fmap.
  - apply Forall_snoc; [apply Hwf|]. simpl. intros n [= <-].
    by eapply varchar_width.
  - apply Forall_snoc; [apply Hwf|]. done.
  - lia.
  - apply Forall_snoc; simpl; [|lia].
    eapply Forall_impl; [apply (wf_phones_seq _ Hwf)|]. simpl. lia.
Qed.

Lemma delete_phone_wf client_id phone d :
  wf d → wf (Sql.delete_phone client_id phone d).2.
Proof.
  intros Hwf. unfold Sql.delete_phone. simpl.
  constructor; simpl; try apply Hwf.
  - apply NoDup_fmap_filter, Hwf.
  - apply NoDup_omap_filter, Hwf.
  - apply Forall_filter_sub, Hwf.
  - apply Forall_filter_sub, Hwf.
  - apply Forall_filter_sub, Hwf.
Qed.

Lemma delete_client_wf client_id d :
  wf d → wf (Sql.delete_client client_id d).
Proof.
  intros Hwf. unfold Sql.delete_client.
  constructor; simpl; try apply Hwf.
  - apply NoDup_fmap_filter, Hwf.
  - apply NoDup_fmap_filter, Hwf.
  - apply Forall_filter_sub, Hwf.
  - apply Forall_filter_sub, Hwf.
  - apply Forall_filter_sub, Hwf.
  - apply NoDup_fmap_filter, Hwf.
  - apply NoDup_omap_filter, Hwf.
  - apply Forall_filter_sub, Hwf.
  - apply Forall_forall. intros p [Hkeep Hp]%list_elem_of_filter.
    pose proof (wf_phones_fk _ Hwf) as Hfk.
    rewrite Forall_forall in Hfk. specialize (Hfk p Hp).
    apply list_elem_of_fmap in Hfk as (c & Hpc & Hc).
    apply list_elem_of_fmap. exists c. split; [done|].
    apply list_elem_of_filter. split; [|done].
    intros Heq. apply Hkeep. rewrite Hpc. apply list_elem_of_fmap_2.
    by apply list_elem_of_filter.
  - apply Forall_filter_sub, Hwf.
  - apply Forall_filter_sub, Hwf.
Qed.

Lemma wf_row_fits d : wf d → Forall row_fits (clients d).
Proof.
  intros Hwf. apply Forall_forall. intros c Hc.
  pose proof (wf_first_name_width _ Hwf) as H1.
  pose proof (wf_last_name_width _ Hwf) as H2.
  pose proof (wf_email_width _ Hwf) as H3.
  rewrite Forall_forall in H1, H2, H3. repeat split; auto.
Qed.

Lemma assign_client_id c a :
  Clients.client_id (Sql.assign c a) = Clients.client_id c.
Proof. unfold Sql.assign. by destruct a.1. Qed.

Lemma foldl_assign_client_id sets c :
  Clients.client_id (foldl Sql.assign c sets) = Clients.client_id c.
Proof.
  revert c. induction sets as [|a sets IH]; intros c; [done|].
  simpl. by rewrite IH, assign_client_id.
Qed.

Lemma foldl_assign_fits sets c :
  row_fits c →
  Forall (λ a, (String.length a.2 ≤ Sql.width a.1)%nat) sets →
  row_fits (foldl Sql.assign c sets).
Proof.
  revert c. induction sets as [|a sets IH]; intros c Hc Hsets; [done|].
  apply Forall_cons in Hsets as [Ha Hsets]. simpl. apply IH; [|done].
  destruct Hc as (? & ? & ?). unfold Sql.assign, row_fits.
  destruct a as [[] v]; simpl in *; auto.
Qed.

Lemma coerce_width a b :
  Sql.coerce a = Some b → (String.length b.2 ≤ Sql.width b.1)%nat.
Proof.
  unfold Sql.coerce. destruct (Text.varchar _ _) as [v|] eqn:Hv; [|done].
  intros [= <-]. simpl. by eapply varchar_width.
Qed.

Lemma mapM_coerce_width l sets :
  mapM Sql.coerce l = Some sets →
  Forall (λ a, (String.length a.2 ≤ Sql.width a.1)%nat) sets.
Proof.
  intros H%mapM_Some_1. induction H as [|a b l sets Hab _ IH]; [done|].
  apply Forall_cons. split; [by eapply coerce_width|done].
Qed.

Lemma update_clients_ids (g : Clients.row → Clients.row)
    (cs : list Clients.row) :
  (∀ c, Clients.client_id (g c) = Clients.client_id c) →
  Clients.client_id <$> (g <$> cs) = Clients.client_id <$> cs.
Proof.
  intros Hg. rewrite <- list_fmap_compose. apply list_fmap_ext.
  intros _ c _. apply Hg.
Qed.

Lemma update_clients_wf update_fields values client_id d :
  wf d → wf (Sql.update_clients update_fields values client_id d).2.
Proof.
  intros Hwf. unfold Sql.update_clients.
  destruct (mapM _ _) as [sets|] eqn:Hsets; [|done].
  case_bool_decide as Huq; [|done]. simpl.
  set (g := λ c, if bool_decide (Clients.client_id c = client_id)
                 then foldl Sql.assign c sets else c) in *.
  assert (∀ c, Clients.client_id (g c) = Clients.client_id c) as Hg.
  { intros c. unfold g. case_bool_decide; [|done].
    apply foldl_assign_client_id. }
  assert (Forall row_fits (g <$> clients d)) as Hfits.
  { apply Forall_fmap. eapply Forall_impl; [by apply wf_row_fits|].
    intros c Hc. simpl. unfold g. case_bool_decide; [|done].
    apply foldl_assign_fits; [done|]. by eapply mapM_coerce_width. }
  constructor; simpl; try apply Hwf.
  - rewrite update_clients_ids by done. apply Hwf.
  - done.
  - eapply Forall_impl; [exact Hfits|]. by intros c (? & ? & ?).
  - eapply Forall_impl; [exact Hfits|]. by intros c (? & ? & ?).
  - eapply Forall_impl; [exact Hfits|]. by intros c (? & ? & ?).
  - rewrite update_clients_ids by done. apply Hwf.
  - apply Forall_fmap. eapply Forall_impl; [apply (wf_clients_seq _ Hwf)|].
    intros c Hc. simpl. by rewrite Hg.
Qed.

(** ** The methods, statement by statement *)

Lemma add_phone_unfold client_id phone s :
  add_phone client_id phone s =
  let log := executed s ++ [sent (SELECT_client_id client_id)] in
  match Sql.select_client_id client_id (db s) with
  | [] => (false, Session (db s) log)
  | _ :: _ =>
      let r := Sql.insert_phone client_id phone (db s) in
      (match r.1 with Done (_ :: _) => true | _ => false end,
       Session r.2 (log ++ [sent (INSERT_phone client_id phone)]))
  end.
Proof.
  unfold add_phone, try_except, mbind, cursor_bind, execute, perform, query. simpl.
  destruct (Sql.select_client_id _ _) as [|x xs]; [done|]. simpl.
  destruct (Sql.insert_phone _ _ _) as [[[|y ys]|e] d']; done.
Qed.

Lemma for_each_add_phone client_id phones s :
  for_each phones (λ phone, call (add_phone client_id phone)) s
  = (Done (), add_phones client_id phones s).
Proof.
  revert s. induction phones as [|phone phones IH]; intros s; [done|].
  simpl. unfold mbind, cursor_bind, call. simpl. apply IH.
Qed.

Lemma add_client_unfold first_name last_name email phones s :
  add_client first_name last_name email phones s =
  let r := Sql.insert_client first_name last_name email (db s) in
  let s1 :=
    Session r.2 (executed s ++ [sent (INSERT_client first_name last_name email)]) in
  match r.1 with
  | Done client_id => (client_id, add_phones client_id (default [] phones) s1)
  | Raised _ => (-1, s1)
  end.
Proof.
  unfold add_client, try_except, mbind, cursor_bind, execute, perform. simpl.
  destruct (Sql.insert_client _ _ _ _) as [[id|e] d']; [|done]. simpl.
  by rewrite for_each_add_phone.
Qed.

Lemma delete_phone_unfold client_id phone s :
  delete_phone client_id phone s =
  let log := executed s ++ [sent (SELECT_client_id client_id)] in
  match Sql.select_client_id client_id (db s) with
  | [] => (false, Session (db s) log)
  | _ :: _ =>
      let r := Sql.delete_phone client_id phone (db s) in
      (match r.1 with _ :: _ => true | [] => false end,
       Session r.2 (log ++ [sent (DELETE_phone client_id phone)]))
  end.
Proof.
  unfold delete_phone, try_except, mbind, cursor_bind, execute, perform, query. simpl.
  destruct (Sql.select_client_id _ _) as [|x xs]; [done|]. simpl.
  by destruct (Phones.phone_id <$> _).
Qed.

Lemma delete_client_unfold client_id s :
  delete_client client_id s =
  let log := executed s ++ [sent (SELECT_client_name client_id)] in
  match Sql.select_client_name client_id (db s) with
  | [] => (false, Session (db s) log)
  | _ :: _ =>
      (true, Session (Sql.delete_client client_id (db s))
               (log ++ [sent (DELETE_client client_id)]))
  end.
Proof.
  unfold delete_client, try_except, mbind, cursor_bind, execute, perform, query. simpl.
  by destruct (Sql.select_client_name _ _).
Qed.

Lemma update_client_unfold client_id kw s :
  update_client client_id kw s =
  let log := executed s ++ [sent (SELECT_client_id client_id)] in
  match Sql.select_client_id client_id (db s) with
  | [] => (false, Session (db s) log)
  | _ :: _ =>
      match (update_lists kw).1 with
      | [] => (false, Session (db s) log)
      | _ :: _ =>
          let r := Sql.update_clients (update_lists kw).1 (update_lists kw).2
                     client_id (db s) in
          (match r.1 with Done _ => true | Raised _ => false end,
           Session r.2
             (log ++ [sent (UPDATE_clients (update_lists kw).1
                              (update_lists kw).2 client_id)]))
      end
  end.
Proof.
  unfold update_client, try_except, mbind, cursor_bind, execute, perform, query. simpl.
  destruct (Sql.select_client_id _ _) as [|x xs]; [done|]. simpl.
  fold (update_lists kw). destruct (update_lists kw) as [[|f fs] vs]; [done|].
  simpl. by destruct (Sql.update_clients _ _ _ _) as [[[]|e] d'].
Qed.

Lemma find_client_unfold kw s :
  find_client kw s =
  match (find_lists kw).1 with
  | [] => ([], s)
  | _ :: _ =>
      (client_of_row <$> Sql.select_find (find_lists kw).1 (find_lists kw).2 (db s),
       Session (db s)
         (executed s ++ [sent (SELECT_find (find_lists kw).1 (find_lists kw).2)]))
  end.
Proof.
  unfold find_client, try_except. fold (find_lists kw).
  by destruct (find_lists kw) as [[|c cs] vs].
Qed.

Lemma get_client_info_unfold client_id s :
  get_client_info client_id s =
  (client_of_row <$> fetchone (Sql.select_client_info client_id (db s)),
   Session (db s) (executed s ++ [sent (SELECT_client_info client_id)])).
Proof.
  unfold get_client_info, try_except, mbind, cursor_bind, execute, perform, query.
  simpl. by destruct (fetchone _).
Qed.

Lemma get_all_clients_unfold s :
  get_all_clients s =
  (client_of_row <$> Sql.select_all_clients (db s),
   Session (db s) (executed s ++ [sent SELECT_all_clients])).
Proof. done. Qed.

(** ** Every reachable session satisfies the invariant *)

Lemma add_phone_wf client_id phone s :
  wf (db s) → wf (db (add_phone client_id phone s).2).
Proof.
  intros Hwf. rewrite add_phone_unfold. simpl.
  destruct (Sql.select_client_id _ _); [done|]. simpl.
  by apply insert_phone_wf.
Qed.

Lemma add_phones_wf client_id phones s :
  wf (db s) → wf (db (add_phones client_id phones s)).
Proof.
  revert s. induction phones as [|phone phones IH]; intros s Hwf; [done|].
  simpl. apply IH. by apply add_phone_wf.
Qed.

Lemma add_client_wf first_name last_name email phones s :
  wf (db s) → wf (db (add_client first_name last_name email phones s).2).
Proof.
  intros Hwf. rewrite add_client_unfold. simpl.
  pose proof (insert_client_wf first_name last_name email _ Hwf) as Hwf1.
  destruct (Sql.insert_client _ _ _ _) as [[id|e] d']; simpl in *; [|done].
  by apply add_phones_wf.
Qed.

Lemma update_client_wf client_id kw s :
  wf (db s) → wf (db (update_client client_id kw s).2).
Proof.
  intros Hwf. rewrite update_client_unfold. simpl.
  destruct (Sql.select_client_id _ _); [done|].
  destruct (update_lists kw).1; [done|]. simpl.
  by apply update_clients_wf.
Qed.

Lemma delete_phone_method_wf client_id phone s :
  wf (db s) → wf (db (delete_phone client_id phone s).2).
Proof.
  intros Hwf. rewrite delete_phone_unfold. simpl.
  destruct (Sql.select_client_id _ _); [done|]. simpl.
  by apply (delete_phone_wf client_id phone).
Qed.

Lemma delete_client_method_wf client_id s :
  wf (db s) → wf (db (delete_client client_id s).2).
Proof.
  intros Hwf. rewrite delete_client_unfold. simpl.
  destruct (Sql.select_client_name _ _); [done|]. simpl.
  by apply delete_client_wf.
Qed.

Lemma find_client_db kw s : db (find_client kw s).2 = db s.
Proof. rewrite find_client_unfold. by destruct (find_lists kw).1. Qed.

Lemma run_wf o s : wf (db s) → wf (db (run o s)).
Proof.
  intros Hwf. destruct o; simpl.
  - by apply add_client_wf.
  - by apply add_phone_wf.
  - by apply update_client_wf.
  - by apply delete_phone_method_wf.
  - by apply delete_client_method_wf.
  - by rewrite find_client_db.
  - by rewrite get_client_info_unfold.
  - done.
  - by destruct Hwf.
Qed.

Lemma reachable_wf s : reachable s → wf (db s).
Proof.
  induction 1 as [t|o s _ IH]; [apply create_tables_wf|by apply run_wf].
Qed.

(** ** Deleting a client *)

Lemma demo_reachable : reachable demo.
Proof.
  unfold demo, connect.
  apply (reachable_run (Add_client _ _ _ _)).
  apply (reachable_run (Add_client _ _ _ _)).
  apply (reachable_run (Add_client _ _ _ _)).
  apply reachable_connect.
Qed.

(** C6: in every session the program can reach, each phone row belongs to
    a client that exists.  When [delete_client] answers True, it has sent
    one DELETE after its look-up; that one statement took the client row
    and, by the cascade, every phone row of the client, and nothing else:
    no client row and no phone row with that client id is left. *)
Theorem delete_client_cascade (s : session) :
  reachable s →
  (∀ p, p ∈ phones (db s) →
        ∃ c, c ∈ clients (db s) ∧ Clients.client_id c = Phones.client_id p) ∧
  ∀ client_id,
    (delete_client client_id s).1 = true →
    let s' := (delete_client client_id s).2 in
    db s' = Sql.delete_client client_id (db s) ∧
    executed s' = executed s ++ [sent (SELECT_client_name client_id);
                                 sent (DELETE_client client_id)] ∧
    clients (db s') =
      filter (λ c, Clients.client_id c ≠ client_id) (clients (db s)) ∧
    phones (db s') =
      filter (λ p, Phones.client_id p ≠ client_id) (phones (db s)) ∧
    (∀ c, c ∈ clients (db s') → Clients.client_id c ≠ client_id) ∧
    (∀ p, p ∈ phones (db s') → Phones.client_id p ≠ client_id).
Proof.
  intros Hs. split.
  - intros p Hp. pose proof (wf_phones_fk _ (reachable_wf _ Hs)) as Hfk.
    rewrite Forall_forall in Hfk.
    apply Hfk, list_elem_of_fmap in Hp as (c & Hpc & Hc). by exists c.
  - intros client_id. rewrite delete_client_unfold. simpl.
    destruct (Sql.select_client_name _ _) as [|x xs] eqn:Hsel; [done|].
    intros _. simpl.
    assert (client_id ∈ Clients.client_id <$>
              filter (λ c, Clients.client_id c = client_id) (clients (db s)))
      as Hgone.
    { unfold Sql.select_client_name in Hsel.
      destruct (filter _ (clients (db s))) as [|c cs] eqn:Hf; [done|].
      assert (c ∈ filter (λ c, Clients.client_id c = client_id)
                    (clients (db s))) as Hc by (rewrite Hf; left).
      apply list_elem_of_filter in Hc as [<- _]. simpl. left. }
    assert (filter
              (λ p, Phones.client_id p ∉ Clients.client_id <$>
                      filter (λ c, Clients.client_id c = client_id)
                        (clients (db s))) (phones (db s))
            = filter (λ p, Phones.client_id p ≠ client_id) (phones (db s)))
      as Hphones.
    { apply list_filter_iff. intros p. split.
      - intros Hnot Heq. apply Hnot. by rewrite Heq.
      - intros Hne (c & Heq & [Hc _]%list_elem_of_filter)%list_elem_of_fmap.
        congruence. }
    split_and!.
    + done.
    + by rewrite <- app_assoc.
    + done.
    + exact Hphones.
    + by intros c [? _]%list_elem_of_filter.
    + rewrite Hphones. by intros p [? _]%list_elem_of_filter.
Qed.

Lemma delete_client_cascade_witness :
  reachable demo ∧
  (delete_client 1 demo).1 = true ∧
  ∀ p, p ∈ phones (db (delete_client 1 demo).2) → Phones.client_id p ≠ 1.
Proof.
  split; [exact demo_reachable|]. split; [reflexivity|].
  apply (delete_client_cascade demo demo_reachable). reflexivity.
Defined.

(** ** Adding a phone *)

Lemma select_client_id_nil client_id d :
  Sql.select_client_id client_id d = [] ↔
  client_id ∉ Clients.client_id <$> clients d.
Proof.
  unfold Sql.select_client_id. split.
  - intros Hnil (c & -> & Hc)%list_elem_of_fmap.
    apply fmap_nil_inv in Hnil.
    by eapply (filter_nil_not_elem_of _ _ c) in Hnil.
  - intros Hnot. destruct (filter _ _) as [|c cs] eqn:Hf; [done|].
    exfalso. apply Hnot.
    assert (c ∈ filter (λ c, Clients.client_id c = client_id) (clients d))
      as [<- Hc]%list_elem_of_filter by (rewrite Hf; left).
    by apply list_elem_of_fmap_2.
Qed.





Lemma demo_wf : wf (db demo).
Proof. apply reachable_wf, demo_reachable. Qed.


(** ** Adding a client *)

Lemma insert_phone_clients client_id phone d :
  clients (Sql.insert_phone client_id phone d).2 = clients d.
Proof.
  unfold Sql.insert_phone. destruct (Text.varchar _ _); [|done].
  destruct (Sql.nextval _); [|done]. by repeat case_bool_decide.
Qed.

Lemma add_phone_clients client_id phone s :
  clients (db (add_phone client_id phone s).2) = clients (db s).
Proof.
  rewrite add_phone_unfold. simpl.
  destruct (Sql.select_client_id _ _); [done|]. simpl.
  apply insert_phone_clients.
Qed.

Lemma add_phones_clients client_id phones s :
  clients (db (add_phones client_id phones s)) = clients (db s).
Proof.
  revert s. induction phones as [|phone phones IH]; intros s; [done|].
  simpl. by rewrite IH, add_phone_clients.
Qed.




(** ** Updating a client *)

Lemma NoDup_fmap_inj_on {A B} (f : A → B) (l : list A) x y :
  NoDup (f <$> l) → x ∈ l → y ∈ l → f x = f y → x = y.
Proof.
  induction l as [|z l IH]; simpl; [by intros _ ?%elem_of_nil|].
  intros [Hz Hnd]%NoDup_cons [->|Hx]%elem_of_cons [->|Hy]%elem_of_cons Hf.
  - done.
  - exfalso. apply Hz. rewrite Hf. by apply list_elem_of_fmap_2.
  - exfalso. apply Hz. rewrite <- Hf. by apply list_elem_of_fmap_2.
  - by apply IH.
Qed.







(** ** ILIKE with a plain value is substring search *)

Lemma append_cons c s t : String c s +:+ t = String c (s +:+ t).
Proof. reflexivity. Qed.

Lemma append_nil s : EmptyString +:+ s = s.
Proof. reflexivity. Qed.

Lemma append_assoc s t u : (s +:+ t) +:+ u = s +:+ t +:+ u.
Proof. induction s as [|c s IH]; [done|]. by rewrite !append_cons, IH. Qed.











(** The patterns [find_client] builds never end in a lone escape. *)
Lemma like_tokens_wrapped v : is_Some (Text.like_tokens (percent v)).
Proof.
  unfold percent. change ("%" +:+ v +:+ "%") with (String "%" (v +:+ "%")).
  simpl. apply fmap_is_Some.
  assert (is_Some (Text.like_tokens (v +:+ "%")) ∧
          ∀ c, is_Some (Text.like_tokens (String c v +:+ "%"))) as [H _];
    [|done].
  induction v as [|d v [IH1 IH2]].
  - split; [eexists; reflexivity|]. intros c.
    change (String c EmptyString +:+ "%") with (String c "%").
    cbn [Text.like_tokens].
    repeat case_bool_decide; try done; eexists; reflexivity.
  - split; [apply IH2|]. intros c.
    change (String c (String d v) +:+ "%")
      with (String c (String d (v +:+ "%"))).
    cbn [Text.like_tokens]. fold (Text.like_tokens (v +:+ "%")).
    case_bool_decide; [by apply fmap_is_Some|].
    specialize (IH2 d).
    change (String d v +:+ "%") with (String d (v +:+ "%")) in IH2.
    cbn [Text.like_tokens] in IH2. fold (Text.like_tokens (v +:+ "%")) in IH2.
    repeat case_bool_decide; by apply fmap_is_Some.
Qed.

(** ** GROUP BY, DISTINCT and ORDER BY *)

Section grouping.
Context {K V : Type} `{EqDecision K}.
Implicit Types (k : K) (v : V) (gs : list (K * list V)).

Lemma elem_of_group_add_keys k' k v gs :
  k' ∈ (Sql.group_add k v gs).*1 ↔ k' = k ∨ k' ∈ gs.*1.
Proof.
  induction gs as [|g gs IH]; simpl.
  - rewrite list_elem_of_singleton, elem_of_nil. tauto.
  - destruct (decide (k = g.1)) as [->|Hne]; simpl.
    + rewrite !elem_of_cons. tauto.
    + rewrite !elem_of_cons, IH. tauto.
Qed.

Lemma NoDup_group_add_keys k v gs :
  NoDup gs.*1 → NoDup (Sql.group_add k v gs).*1.
Proof.
  induction gs as [|g gs IH]; simpl.
  - intros _. apply NoDup_singleton.
  - intros [Hg Hnd]%NoDup_cons.
    destruct (decide (k = g.1)) as [->|Hne]; simpl.
    + by apply NoDup_cons.
    + apply NoDup_cons. split; [|by apply IH].
      rewrite elem_of_group_add_keys.
      intros [Heq|Hin]; [by apply Hne|by apply Hg].
Qed.

Lemma elem_of_group_by_keys (key : V → K) (rows : list V) k :
  k ∈ (Sql.group_by key rows).*1 ↔ k ∈ key <$> rows.
Proof.
  induction rows as [|r rows IH]; simpl; [done|].
  rewrite elem_of_group_add_keys, elem_of_cons, IH. tauto.
Qed.

Lemma NoDup_group_by_keys (key : V → K) (rows : list V) :
  NoDup (Sql.group_by key rows).*1.
Proof.
  induction rows as [|r rows IH]; simpl; [apply NoDup_nil_2|].
  by apply NoDup_group_add_keys.
Qed.
Lemma elem_of_group_add k' vs k v gs :
  NoDup gs.*1 →
  (k', vs) ∈ Sql.group_add k v gs →
  (k' = k ∧ ((∃ vs0, (k, vs0) ∈ gs ∧ vs = v :: vs0) ∨
             ((k ∉ fst <$> gs) ∧ vs = [v]))) ∨
  (k' ≠ k ∧ (k', vs) ∈ gs).
Proof.
  induction gs as [|[k0 vs0] gs IH]; simpl.
  - intros _ [= -> ->]%list_elem_of_singleton. left. split; [done|].
    right. split; [apply not_elem_of_nil|done].
  - intros [Hk0 Hnd]%NoDup_cons.
    destruct (decide (k = k0)) as [->|Hne]; simpl.
    + intros [[= -> ->]|Hin]%elem_of_cons.
      * left. split; [done|]. left. exists vs0. split; [left|done].
      * right. split; [|by right]. intros ->. apply Hk0.
        by apply (list_elem_of_fmap_2 fst) in Hin.
    + intros [[= -> ->]|Hin]%elem_of_cons.
      * right. split; [done|left].
      * destruct (IH Hnd Hin) as [[-> [(vs1 & H1 & ->)|[Hk ->]]]|[Hk Hin']].
        -- left. split; [done|]. left. exists vs1. split; [by right|done].
        -- left. split; [done|]. right. split; [|done].
           by intros [?|?]%elem_of_cons.
        -- right. split; [done|by right].
Qed.

(** A group holds the rows of its key, in their order. *)
Lemma elem_of_group_by (key : V → K) (rows : list V) k vs :
  (k, vs) ∈ Sql.group_by key rows → vs = filter (λ r, key r = k) rows.
Proof.
  revert k vs. induction rows as [|r rows IH]; intros k vs; simpl.
  - by intros ?%elem_of_nil.
  - intros Hin. apply elem_of_group_add in Hin; [|apply NoDup_group_by_keys].
    destruct Hin as [[-> [(vs0 & H0 & ->)|[Hk ->]]]|[Hk Hin]].
    + rewrite filter_cons_True by done. f_equal. by apply IH.
    + rewrite filter_cons_True by done. f_equal.
      rewrite elem_of_group_by_keys in Hk.
      destruct (filter _ rows) as [|r' rs] eqn:Hf; [done|]. exfalso.
      assert (r' ∈ filter (λ r0, key r0 = key r) rows)
        as [Hr' Hin]%list_elem_of_filter by (rewrite Hf; left).
      apply Hk. rewrite <- Hr'. by apply list_elem_of_fmap_2.
    + rewrite filter_cons_False by done. by apply IH.
Qed.
End grouping.


#[local] Instance by_client_id_trans : Transitive Sql.by_client_id.
Proof. unfold Sql.by_client_id. intros x y z. lia. Qed.

#[local] Instance by_client_id_total : Total Sql.by_client_id.
Proof. unfold Sql.by_client_id. intros x y. lia. Qed.

Lemma order_by_client_id_perm rows : Sql.order_by_client_id rows ≡ₚ rows.
Proof. apply merge_sort_Permutation. Qed.



Lemma filter_nil_elem {A} (P : A → Prop) `{!∀ x, Decision (P x)}
    (l : list A) x :
  filter P l = [] → x ∈ l → ¬ P x.
Proof.
  intros Hf Hx HP.
  assert (x ∈ filter P l) as Hin by (by apply list_elem_of_filter).
  rewrite Hf in Hin. by apply elem_of_nil in Hin.
Qed.

(** A joined row is a client with one of its phone rows, or with none
    when it has none. *)
Lemma elem_of_joined_rows (c : Clients.row) (l : list Phones.row)
    (j : Sql.joined) :
  j ∈ match l with
      | [] => [(c, None)]
      | p :: ps' => pair c ∘ Some <$> p :: ps'
      end ↔
  j.1 = c ∧ match j.2 with Some p => p ∈ l | None => l = [] end.
Proof.
  destruct j as [c' o]. destruct l as [|p l].
  - rewrite list_elem_of_singleton. simpl. split.
    + by intros [= -> ->].
    + intros [-> Ho]. destruct o as [q|]; [|done]. by apply elem_of_nil in Ho.
  - rewrite list_elem_of_fmap. simpl. split.
    + by intros (q & [= -> ->] & Hq).
    + intros [-> Ho]. destruct o as [q|]; [|done]. by exists q.
Qed.

Lemma elem_of_left_join (cs : list Clients.row) (ps : list Phones.row)
    (j : Sql.joined) :
  j ∈ Sql.left_join cs ps ↔
  j.1 ∈ cs ∧
  match j.2 with
  | Some p => p ∈ ps ∧ Clients.client_id j.1 = Phones.client_id p
  | None => ∀ p, p ∈ ps → Clients.client_id j.1 ≠ Phones.client_id p
  end.
Proof.
  unfold Sql.left_join, Sql.joined_rows. rewrite list_elem_of_bind. split.
  - intros (c & [<- Ho]%elem_of_joined_rows & Hc). split; [done|].
    destruct j.2 as [p|].
    + apply list_elem_of_filter in Ho as [? ?]. done.
    + intros p Hp Heq. by apply (filter_nil_elem _ _ p Ho Hp).
  - intros [Hc Ho]. exists j.1. split; [|done].
    apply elem_of_joined_rows. split; [done|]. destruct j.2 as [p|].
    + destruct Ho as [Hp Heq]. by apply list_elem_of_filter.
    + destruct (filter _ ps) as [|p ps'] eqn:Hf; [done|]. exfalso.
      assert (p ∈ filter (λ p, Clients.client_id j.1 = Phones.client_id p) ps)
        as [Heq Hp]%list_elem_of_filter by (rewrite Hf; left).
      by eapply Ho.
Qed.

Lemma left_join_total (cs : list Clients.row) (ps : list Phones.row) c :
  c ∈ cs → ∃ o, (c, o) ∈ Sql.left_join cs ps.
Proof.
  intros Hc.
  destruct (filter (λ p, Clients.client_id c = Phones.client_id p) ps)
    as [|p ps'] eqn:Hf.
  - exists None. apply elem_of_left_join. split; [done|]. simpl.
    intros p Hp Heq. by apply (filter_nil_elem _ _ p Hf Hp).
  - exists (Some p). apply elem_of_left_join. split; [done|]. simpl.
    assert (p ∈ filter (λ p, Clients.client_id c = Phones.client_id p) ps)
      as [Heq Hp]%list_elem_of_filter by (rewrite Hf; left).
    done.
Qed.

(** ** Searching *)





Lemma plain_filters_lookup (kw : kwargs) name v :
  plain_filters kw →
  name ∈ ["first_name"; "last_name"; "email"; "phone"] →
  kw !! name = Some v → Text.plain v = true.
Proof. intros Hkw Hname Hv. by eapply Hkw. Qed.







(** ** The phones of a client in the answers *)

Lemma filter_ext_elem {A} (P Q : A → Prop) `{!∀ x, Decision (P x)}
    `{!∀ x, Decision (Q x)} (l : list A) :
  (∀ x, x ∈ l → P x ↔ Q x) → filter P l = filter Q l.
Proof.
  induction l as [|x l IH]; intros HPQ; [done|].
  rewrite !filter_cons. assert (P x ↔ Q x) as Hx by (apply HPQ; left).
  rewrite IH by (intros y Hy; apply HPQ; by right).
  destruct (decide (P x)), (decide (Q x)); tauto.
Qed.

Lemma filter_all {A} (P : A → Prop) `{!∀ x, Decision (P x)} (l : list A) :
  (∀ x, x ∈ l → P x) → filter P l = l.
Proof.
  induction l as [|x l IH]; intros HP; [done|].
  rewrite filter_cons_True by (apply HP; left).
  f_equal. apply IH. intros y Hy. apply HP. by right.
Qed.

Lemma filter_none {A} (P : A → Prop) `{!∀ x, Decision (P x)} (l : list A) :
  (∀ x, x ∈ l → ¬ P x) → filter P l = [].
Proof.
  induction l as [|x l IH]; intros HP; [done|].
  rewrite filter_cons_False by (apply HP; left).
  apply IH. intros y Hy. apply HP. by right.
Qed.

Lemma joined_rows_fst c ps j : j ∈ Sql.joined_rows c ps → j.1 = c.
Proof. unfold Sql.joined_rows. by intros [? _]%elem_of_joined_rows. Qed.

Lemma left_join_cons c cs ps :
  Sql.left_join (c :: cs) ps = Sql.joined_rows c ps ++ Sql.left_join cs ps.
Proof. done. Qed.

Lemma filter_left_join (cs : list Clients.row) (ps : list Phones.row) c :
  NoDup cs → c ∈ cs →
  filter (λ j : Sql.joined, j.1 = c) (Sql.left_join cs ps)
  = Sql.joined_rows c ps.
Proof.
  induction cs as [|c' cs IH]; [by intros _ ?%elem_of_nil|].
  intros [Hc' Hnd]%NoDup_cons Hc. rewrite left_join_cons, filter_app.
  destruct (decide (c' = c)) as [->|Hne].
  - rewrite filter_all by apply joined_rows_fst.
    rewrite filter_none; [by rewrite app_nil_r|].
    intros j [Hj _]%elem_of_left_join Heq. apply Hc'. by rewrite <- Heq.
  - rewrite filter_none.
    + apply IH; [done|]. by apply elem_of_cons in Hc as [?|?].
    + intros j Hj%joined_rows_fst. congruence.
Qed.

Lemma filter_left_join_id (cs : list Clients.row) (ps : list Phones.row) c :
  NoDup (Clients.client_id <$> cs) → c ∈ cs →
  filter (λ j : Sql.joined, Clients.client_id j.1 = Clients.client_id c)
    (Sql.left_join cs ps)
  = Sql.joined_rows c ps.
Proof.
  intros Hnd Hc. rewrite <- (filter_left_join cs ps c);
    [|by eapply NoDup_fmap_1|done].
  apply filter_ext_elem. intros j [Hj _]%elem_of_left_join. split.
  - intros Heq. by apply (NoDup_fmap_inj_on Clients.client_id cs).
  - by intros ->.
Qed.

Lemma joined_rows_phoneless c d :
  phone_numbers_of (Clients.client_id c) d = [] →
  Sql.joined_rows c (phones d) = [(c, None)].
Proof.
  unfold phone_numbers_of, Sql.joined_rows. intros Hnil%fmap_nil_inv.
  rewrite (filter_ext_elem _ (λ p, Phones.client_id p = Clients.client_id c))
    by done.
  by rewrite Hnil.
Qed.

(** The defect behind C2, in general: every client without a phone row
    comes back from [get_all_clients] and [get_client_info] with the
    phones list [None]. *)
Lemma phoneless_client_null_phones (s : session) (c : Clients.row) :
  wf (db s) →
  c ∈ clients (db s) →
  phone_numbers_of (Clients.client_id c) (db s) = [] →
  client_of_row (c, Some [None]) ∈ (get_all_clients s).1 ∧
  (get_client_info (Clients.client_id c) s).1
  = Some (client_of_row (c, Some [None])).
Proof.
  intros Hwf Hc Hnone. pose proof (wf_client_id_pk _ Hwf) as Hpk.
  pose proof (joined_rows_phoneless c (db s) Hnone) as Hrows. split.
  - rewrite get_all_clients_unfold. simpl. apply list_elem_of_fmap_2.
    unfold Sql.select_all_clients. rewrite order_by_client_id_perm.
    destruct (left_join_total (clients (db s)) (phones (db s)) c Hc)
      as [o Ho].
    assert (c ∈ (Sql.group_by fst
                   (Sql.left_join (clients (db s)) (phones (db s)))).*1)
      as ([k vs] & Hk & Hg)%list_elem_of_fmap.
    { apply elem_of_group_by_keys. by apply (list_elem_of_fmap_2 fst) in Ho. }
    simpl in Hk. subst k.
    apply list_elem_of_fmap. exists (c, vs). split; [|done]. simpl.
    apply elem_of_group_by in Hg as ->.
    rewrite filter_left_join by (by eapply NoDup_fmap_1 || done).
    by rewrite Hrows.
  - rewrite get_client_info_unfold. simpl. unfold Sql.select_client_info.
    rewrite (filter_left_join_id _ _ c) by done. rewrite Hrows. simpl.
    by destruct (decide (c = c)).
Qed.

Lemma phones_or_empty_array_agg values :
  phones_or_empty (Sql.array_agg values) = values.
Proof. by destruct values. Qed.

Lemma filter_fmap_filter {A B} (f : A → B) (P Q : B → Prop)
    `{!∀ y, Decision (P y)} `{!∀ y, Decision (Q y)} (l : list A) :
  (∀ y, P y → Q y) →
  filter Q (f <$> filter (λ x, P (f x)) l) = filter P (f <$> l).
Proof.
  intros HPQ. induction l as [|x l IH]; [done|].
  rewrite fmap_cons, !filter_cons. destruct (decide (P (f x))) as [HP|HP].
  - rewrite fmap_cons, filter_cons_True by by apply HPQ. by rewrite IH.
  - done.
Qed.



(** C2 fails on a client without phones: Maria (client 3) owns no phone
    row, yet [get_all_clients] and [get_client_info] give her the phones
    list [None], a list of one null.  ARRAY_AGG over the one row the left
    join keeps for her is the array of one NULL, which is not falsy, so
    [row[5] if row[5] else []] lets it through.  It is so for every client
    without phones ([phoneless_client_null_phones]). *)
Theorem phoneless_client_gets_null :
  phone_numbers_of 3 (db demo) = [] ∧
  (get_all_clients demo).1 !! 2%nat =
    Some (Client.Dict 3 "Maria" "Sidorova" "sidorova@example.com" 0 [None]) ∧
  (get_client_info 3 demo).1 =
    Some (Client.Dict 3 "Maria" "Sidorova" "sidorova@example.com" 0 [None]).
Proof. split_and!; by vm_compute. Qed.

(** C1 fails under a phone filter: Ivan (client 1) owns two numbers, and
    the search for "+7916" returns him with the one number that matched.
    The WHERE clause drops the joined rows of his other numbers before
    ARRAY_AGG sees them.  It is so for every search with a phone filter
    ([find_client_phones_filtered]). *)
Theorem find_client_by_phone_keeps_matches_only :
  phone_numbers_of 1 (db demo) = [Some "+79161234567"; Some "+74951234567"] ∧
  (find_client {["phone" := "+7916"]} demo).1 =
    [Client.Dict 1 "Ivan" "Ivanov" "ivanov@example.com" 0
       [Some "+79161234567"];
     Client.Dict 2 "Petr" "Petrov" "petrov@example.com" 0
       [Some "+79169876543"]].
Proof. split; by vm_compute. Qed.

(** ** The model on the demonstration data *)

Example lower_Ivan : Text.lower "Ivan" = "ivan".
Proof. reflexivity. Qed.

Example ilike_iv : Text.ilike "Ivan" (percent "iv") = true.
Proof. reflexivity. Qed.

Example varchar_cut : Text.varchar 3 "ab   " = Some "ab ".
Proof. reflexivity. Qed.

Example varchar_long : Text.varchar 3 "abcd" = None.
Proof. reflexivity. Qed.

Example find_iv :
  Client.client_id <$> (find_client {["first_name" := "iv"]} demo).1 = [1].
Proof. by vm_compute. Qed.

Example delete_phone_then_get :
  let s := (delete_phone 1 "+74951234567" demo).2 in
  Client.phones <$> (get_client_info 1 s).1 = Some [Some "+79161234567"].
Proof. by vm_compute. Qed.

Example add_phone_to_missing_client :
  (add_phone 99 "+70000000000" demo).1 = false ∧
  phones (db (add_phone 99 "+70000000000" demo).2) = phones (db demo).
Proof. by vm_compute. Qed.


(** * More of the program *)

(** ** What the two listings return *)

Section grouping_contents.
Context {K V : Type} `{EqDecision K}.

Lemma elem_of_group_by_iff (key : V → K) (rows : list V) k vs :
  (k, vs) ∈ Sql.group_by key rows ↔
  k ∈ key <$> rows ∧ vs = filter (λ r, key r = k) rows.
Proof.
  split.
  - intros Hin. split; [|by apply elem_of_group_by].
    apply elem_of_group_by_keys. by apply (list_elem_of_fmap_2 fst) in Hin.
  - intros [Hk ->]. apply elem_of_group_by_keys in Hk.
    apply list_elem_of_fmap in Hk as ([k' vs] & Hk & Hin). simpl in Hk.
    subst k'. by rewrite <- (elem_of_group_by _ _ _ _ Hin).
Qed.

Lemma group_by_one_key (key : V → K) (rows : list V) k :
  rows ≠ [] → (∀ r, r ∈ rows → key r = k) →
  Sql.group_by key rows = [(k, rows)].
Proof.
  induction rows as [|r rows IH]; [done|]. intros _ Hkey. simpl.
  rewrite (Hkey r) by left. destruct rows as [|r' rows]; [done|].
  rewrite IH; [|done|intros x Hx; apply Hkey; by right]. simpl.
  by rewrite decide_True.
Qed.
End grouping_contents.

Lemma joined_rows_not_nil c ps : Sql.joined_rows c ps ≠ [].
Proof. unfold Sql.joined_rows. by destruct (filter _ ps). Qed.

Lemma joined_rows_numbers c d :
  Sql.p_phone_number <$> Sql.joined_rows c (phones d)
  = listed_phones (Clients.client_id c) d.
Proof.
  unfold listed_phones, phone_numbers_of, Sql.joined_rows.
  rewrite (filter_ext_elem (λ p, Phones.client_id p = Clients.client_id c)
             (λ p, Clients.client_id c = Phones.client_id p)) by done.
  destruct (filter _ (phones d)) as [|p ps]; [done|].
  rewrite <- list_fmap_compose. done.
Qed.

Lemma client_of_row_listed c d :
  client_of_row
    (c, Sql.array_agg (Sql.p_phone_number <$> Sql.joined_rows c (phones d)))
  = listed d c.
Proof.
  unfold client_of_row, listed. simpl.
  by rewrite phones_or_empty_array_agg, joined_rows_numbers.
Qed.

Lemma left_join_clients (cs : list Clients.row) (ps : list Phones.row) c :
  c ∈ fst <$> Sql.left_join cs ps ↔ c ∈ cs.
Proof.
  rewrite list_elem_of_fmap. split.
  - by intros (j & -> & [? _]%elem_of_left_join).
  - intros Hc. destruct (left_join_total cs ps c Hc) as [o Ho].
    by exists (c, o).
Qed.

(** The rows of [select_all_clients]: one for each client, with the
    numbers of its joined rows. *)
Lemma select_all_clients_rows d :
  NoDup (Clients.client_id <$> clients d) →
  Sql.select_all_clients d ≡ₚ
  (λ c, (c, Sql.array_agg
              (Sql.p_phone_number <$> Sql.joined_rows c (phones d))))
    <$> clients d.
Proof.
  intros Hpk. assert (NoDup (clients d)) as Hnd by by eapply NoDup_fmap_1.
  unfold Sql.select_all_clients. rewrite order_by_client_id_perm.
  set (joined := Sql.left_join _ _).
  apply NoDup_Permutation.
  - apply (NoDup_fmap_1 fst). rewrite <- list_fmap_compose.
    apply NoDup_group_by_keys.
  - apply (NoDup_fmap_1 fst). rewrite <- list_fmap_compose.
    by rewrite list_fmap_id.
  - intros row. rewrite !list_elem_of_fmap. split.
    + intros ([k vs] & -> & [Hk ->]%elem_of_group_by_iff). simpl.
      apply left_join_clients in Hk. exists k. split; [|done].
      unfold joined. by rewrite filter_left_join.
    + intros (c & -> & Hc).
      exists (c, filter (λ j : Sql.joined, j.1 = c) joined). split.
      * simpl. unfold joined. by rewrite filter_left_join.
      * apply elem_of_group_by_iff. split; [|done].
        by apply left_join_clients.
Qed.

Lemma get_all_clients_listed (s : session) :
  wf (db s) →
  (get_all_clients s).1 ≡ₚ listed (db s) <$> clients (db s).
Proof.
  intros Hwf. rewrite get_all_clients_unfold. simpl.
  rewrite select_all_clients_rows by apply Hwf.
  rewrite <- list_fmap_compose.
  rewrite (list_fmap_ext _ (listed (db s)) (clients (db s))); [done|].
  intros _ c _. apply client_of_row_listed.
Qed.


Lemma get_client_info_missing (client_id : Z) (s : session) :
  client_id ∉ Clients.client_id <$> clients (db s) →
  (get_client_info client_id s).1 = None.
Proof.
  intros Hnot. rewrite get_client_info_unfold. simpl.
  unfold Sql.select_client_info. rewrite filter_none; [done|].
  intros j [Hj _]%elem_of_left_join Heq. apply Hnot. rewrite <- Heq.
  by apply list_elem_of_fmap_2.
Qed.

Lemma get_client_info_listed (s : session) (c : Clients.row) :
  wf (db s) → c ∈ clients (db s) →
  (get_client_info (Clients.client_id c) s).1 = Some (listed (db s) c).
Proof.
  intros Hwf Hc. rewrite get_client_info_unfold. simpl.
  unfold Sql.select_client_info.
  rewrite (filter_left_join_id _ _ c) by (apply Hwf || done).
  rewrite (group_by_one_key fst _ c);
    [|apply joined_rows_not_nil|apply joined_rows_fst].
  simpl. f_equal. apply client_of_row_listed.
Qed.







(** ** The phones [find_client] returns *)




(** ** Deleting a phone *)

Lemma select_client_name_nil client_id d :
  Sql.select_client_name client_id d = [] ↔
  client_id ∉ Clients.client_id <$> clients d.
Proof.
  rewrite <- select_client_id_nil.
  unfold Sql.select_client_name, Sql.select_client_id.
  by destruct (filter _ (clients d)).
Qed.

Lemma filter_number_le_1 (ps : list Phones.row) (P : Phones.row → Prop)
    `{!∀ p, Decision (P p)} n :
  NoDup (omap Phones.phone_number ps) →
  (∀ p, P p → Phones.phone_number p = Some n) →
  (length (filter P ps) ≤ 1)%nat.
Proof.
  intros Hnd HP. induction ps as [|p ps IH]; simpl; [lia|].
  rewrite filter_cons. simpl in Hnd. destruct (decide (P p)) as [Hp|Hp].
  - rewrite (HP p Hp) in Hnd. apply NoDup_cons in Hnd as [Hn Hnd].
    rewrite filter_none; [simpl; lia|]. intros q Hq HPq. apply Hn.
    apply list_elem_of_omap. exists q. split; [done|by apply HP].
  - apply IH. destruct (Phones.phone_number p); [|done].
    by apply NoDup_cons in Hnd as [_ ?].
Qed.

(** [delete_phone] answers True exactly when the client exists and a phone
    row carries that client id and exactly that number.  That one row is
    then deleted and nothing else; on False the database is as before.
    The clients table is never touched. *)
Theorem delete_phone_spec (client_id : Z) (phone : string) (s : session) :
  wf (db s) →
  let r := delete_phone client_id phone s in
  let hit p :=
    Phones.client_id p = client_id ∧ Phones.phone_number p = Some phone in
  (r.1 = true ↔
     client_id ∈ Clients.client_id <$> clients (db s) ∧
     ∃ p, p ∈ phones (db s) ∧ hit p) ∧
  (r.1 = true →
     phones (db r.2) = filter (λ p, ¬ hit p) (phones (db s)) ∧
     (length (phones (db r.2)) + 1 = length (phones (db s)))%nat) ∧
  (r.1 = false → db r.2 = db s) ∧
  clients (db r.2) = clients (db s).
Proof.
  intros Hwf. simpl. rewrite delete_phone_unfold. simpl.
  destruct (Sql.select_client_id _ _) as [|x xs] eqn:Hsel.
  { apply select_client_id_nil in Hsel. simpl. split_and!; try done.
    split; [done|]. by intros [? _]. }
  assert (client_id ∈ Clients.client_id <$> clients (db s)) as Hex.
  { destruct (decide (client_id ∈ Clients.client_id <$> clients (db s)))
      as [|Hn]; [done|].
    apply select_client_id_nil in Hn. congruence. }
  clear Hsel. simpl.
  set (hit := λ p, Phones.client_id p = client_id ∧
                   Phones.phone_number p = Some phone).
  destruct (filter hit (phones (db s))) as [|p ps] eqn:Hf; simpl.
  - split_and!; try done.
    + split; [done|]. intros (_ & p & Hp & Hhit).
      by destruct (filter_nil_elem hit _ p Hf Hp).
    + intros _. destruct (db s) as [cs phs n1 n2 t]. unfold Sql.with_phones.
      simpl in *. f_equal. apply filter_all. intros p Hp.
      by apply (filter_nil_elem hit _ p Hf Hp).
  - split_and!; try done.
    + split; [intros _|done]. split; [done|]. exists p.
      assert (p ∈ filter hit (phones (db s))) as [? ?]%list_elem_of_filter
        by (rewrite Hf; left).
      done.
    + intros _. split; [done|].
      pose proof (filter_app_complement hit (phones (db s))) as Hperm.
      apply Permutation_length in Hperm. rewrite length_app in Hperm.
      pose proof (filter_number_le_1 (phones (db s)) hit phone
                    (wf_phone_number_unique _ Hwf)) as Hle.
      rewrite Hf in Hperm, Hle. simpl in Hperm, Hle.
      specialize (Hle ltac:(by intros q [_ ?])). unfold hit in *. lia.
Qed.

Lemma delete_phone_spec_witness :
  wf (db demo) ∧
  (length (phones (db (delete_phone 1 "+74951234567" demo).2)) + 1
   = length (phones (db demo)))%nat.
Proof.
  split; [exact demo_wf|].
  pose proof (delete_phone_spec 1 "+74951234567" demo demo_wf) as H.
  cbv zeta in H. destruct H as (_ & H & _). apply H. by vm_compute.
Defined.

(** ** Calls on a client that does not exist *)

(** For an id no client has, [add_phone], [update_client], [delete_phone]
    and [delete_client] all answer False after their look-up SELECT, which
    is the only statement they send, and the database is as before. *)
Theorem missing_client_refused (client_id : Z) (s : session) :
  client_id ∉ Clients.client_id <$> clients (db s) →
  (∀ phone,
     add_phone client_id phone s
     = (false, Session (db s)
                 (executed s ++ [sent (SELECT_client_id client_id)]))) ∧
  (∀ kw,
     update_client client_id kw s
     = (false, Session (db s)
                 (executed s ++ [sent (SELECT_client_id client_id)]))) ∧
  (∀ phone,
     delete_phone client_id phone s
     = (false, Session (db s)
                 (executed s ++ [sent (SELECT_client_id client_id)]))) ∧
  delete_client client_id s
  = (false, Session (db s)
              (executed s ++ [sent (SELECT_client_name client_id)])).
Proof.
  intros Hnot. pose proof Hnot as Hname.
  apply select_client_id_nil in Hnot. apply select_client_name_nil in Hname.
  split_and!.
  - intros phone. rewrite add_phone_unfold. simpl. by rewrite Hnot.
  - intros kw. rewrite update_client_unfold. simpl. by rewrite Hnot.
  - intros phone. rewrite delete_phone_unfold. simpl. by rewrite Hnot.
  - rewrite delete_client_unfold. simpl. by rewrite Hname.
Qed.

Lemma missing_client_refused_witness :
  add_phone 99 "+70000000000" demo
  = (false, Session (db demo)
              (executed demo ++ [sent (SELECT_client_id 99)])).
Proof.
  assert (99 ∉ Clients.client_id <$> clients (db demo)) as Hnot
    by by_computation.
  destruct (missing_client_refused 99 demo Hnot) as [H _]. apply H.
Defined.

(** ** A phone number has one owner *)

Lemma add_phone_true (client_id : Z) (phone : string) (s : session) :
  (add_phone client_id phone s).1 = true →
  ∃ ph,
    Text.varchar 20 phone = Some ph ∧
    client_id ∈ Clients.client_id <$> clients (db s) ∧
    (Some ph ∉ Phones.phone_number <$> phones (db s)) ∧
    phones (db (add_phone client_id phone s).2) =
      phones (db s) ++
        [Phones.Row (phones_phone_id_seq (db s)) client_id (Some ph)
           (current_timestamp (db s))].
Proof.
  rewrite add_phone_unfold. simpl.
  destruct (Sql.select_client_id _ _) as [|x xs]; [done|]. simpl.
  unfold Sql.insert_phone.
  destruct (Text.varchar 20 phone) as [ph|]; [|done].
  destruct (Sql.nextval _) as [id|] eqn:Hid; [|done].
  apply nextval_Some in Hid as ->.
  case_bool_decide as Hdup; [done|]. case_bool_decide as Hpk; [done|].
  case_bool_decide as Hfk; [|done]. simpl. intros _. by exists ph.
Qed.

Lemma add_phone_false (client_id : Z) (phone : string) (s : session) :
  (add_phone client_id phone s).1 = false →
  phones (db (add_phone client_id phone s).2) = phones (db s).
Proof.
  rewrite add_phone_unfold. simpl.
  destruct (Sql.select_client_id _ _) as [|x xs]; [done|]. simpl.
  unfold Sql.insert_phone.
  destruct (Text.varchar 20 phone) as [ph|]; [|done].
  destruct (Sql.nextval _) as [id|]; [|done].
  by repeat case_bool_decide.
Qed.

Lemma add_phone_taken (client_id : Z) (phone ph : string) (s : session) :
  Text.varchar 20 phone = Some ph →
  Some ph ∈ Phones.phone_number <$> phones (db s) →
  (add_phone client_id phone s).1 = false.
Proof.
  intros Hph Hin. rewrite add_phone_unfold. simpl.
  destruct (Sql.select_client_id _ _) as [|x xs]; [done|]. simpl.
  unfold Sql.insert_phone. rewrite Hph.
  destruct (Sql.nextval _) as [id|]; [|done].
  by rewrite bool_decide_eq_true_2.
Qed.

(** Once [add_phone] has given a number to a client, giving the same
    number to any client, that one or another, answers False and leaves
    the phones table as it is: the number keeps its owner. *)
Theorem phone_keeps_its_owner (a b : Z) (phone : string) (s : session) :
  (add_phone a phone s).1 = true →
  let s1 := (add_phone a phone s).2 in
  (add_phone b phone s1).1 = false ∧
  phones (db (add_phone b phone s1).2) = phones (db s1) ∧
  ∃ p ph, p ∈ phones (db s1) ∧ Text.varchar 20 phone = Some ph ∧
          Phones.phone_number p = Some ph ∧ Phones.client_id p = a.
Proof.
  intros (ph & Hph & _ & _ & Hrows)%add_phone_true. simpl.
  assert ((add_phone b phone (add_phone a phone s).2).1 = false) as Hfalse.
  { apply (add_phone_taken _ _ ph); [done|]. rewrite Hrows, fmap_app.
    apply elem_of_app. right. left. }
  split_and!; [done|by apply add_phone_false|].
  eexists _, ph. split_and!; [|done|..].
  - rewrite Hrows. apply elem_of_app. right. left.
  - done.
  - done.
Qed.

Lemma phone_keeps_its_owner_witness :
  (add_phone 2 "+79167778899" (add_phone 3 "+79167778899" demo).2).1 = false.
Proof.
  assert ((add_phone 3 "+79167778899" demo).1 = true) as Htrue
    by (by vm_compute).
  pose proof (phone_keeps_its_owner 3 2 "+79167778899" demo Htrue) as H.
  cbv zeta in H. by destruct H as [H _].
Defined.

(** ** Adding a phone and taking it away again *)

Lemma select_client_id_cons client_id d :
  client_id ∈ Clients.client_id <$> clients d →
  ∃ x xs, Sql.select_client_id client_id d = x :: xs.
Proof.
  intros Hin. destruct (Sql.select_client_id client_id d) as [|x xs] eqn:Hsel.
  - by apply select_client_id_nil in Hsel.
  - by exists x, xs.
Qed.

(** After [add_phone] has answered True, [delete_phone] for the same
    client and the number as the column stored it answers True and the
    phones table is the one from before the two calls.  When the column
    cut the number (spaces beyond 20 characters), [delete_phone] with the
    number as it was given answers False: no row holds it. *)
Theorem add_phone_then_delete_phone (client_id : Z) (phone ph : string)
    (s : session) :
  wf (db s) →
  (add_phone client_id phone s).1 = true →
  Text.varchar 20 phone = Some ph →
  let s1 := (add_phone client_id phone s).2 in
  (delete_phone client_id ph s1).1 = true ∧
  phones (db (delete_phone client_id ph s1).2) = phones (db s) ∧
  clients (db (delete_phone client_id ph s1).2) = clients (db s) ∧
  (ph ≠ phone → (delete_phone client_id phone s1).1 = false).
Proof.
  intros Hwf (ph' & Hph' & Hex & Hnew & Hrows)%add_phone_true Hph. simpl.
  assert (ph' = ph) as -> by congruence. clear Hph'.
  set (s1 := (add_phone client_id phone s).2) in *.
  assert (clients (db s1) = clients (db s)) as Hcs
    by apply add_phone_clients.
  destruct (select_client_id_cons client_id (db s1)) as (x & xs & Hsel);
    [by rewrite Hcs|].
  rewrite !delete_phone_unfold. simpl. rewrite Hsel. simpl. rewrite Hrows.
  rewrite !filter_app.
  set (row := Phones.Row _ _ _ _).
  rewrite (filter_none _ (phones (db s))).
  2: { intros q Hq [_ Hn]. apply Hnew. rewrite <- Hn.
       by apply list_elem_of_fmap_2. }
  rewrite (filter_all _ (phones (db s))).
  2: { intros q Hq [_ Hn]. apply Hnew. rewrite <- Hn.
       by apply list_elem_of_fmap_2. }
  rewrite (filter_all _ [row]) by (intros q ->%list_elem_of_singleton; done).
  rewrite (filter_none _ [row]).
  2: { intros q ->%list_elem_of_singleton Hq. by apply Hq. }
  simpl. rewrite app_nil_r. split_and!; [done..|].
  intros Hne. rewrite (filter_none _ (phones (db s))).
  2: { intros q Hq [_ Hn].
       pose proof (wf_phone_number_width _ Hwf) as Hw.
       rewrite Forall_forall in Hw. specialize (Hw q Hq phone Hn).
       rewrite (varchar_fits _ _ Hw) in Hph. congruence. }
  rewrite (filter_none _ [row]); [done|].
  intros q ->%list_elem_of_singleton [_ Hn]. simpl in Hn. congruence.
Qed.

Lemma add_phone_then_delete_phone_witness :
  wf (db demo) ∧
  phones (db (delete_phone 3 "+79167778899"
                (add_phone 3 "+79167778899" demo).2).2)
  = phones (db demo).
Proof.
  split; [exact demo_wf|].
  assert ((add_phone 3 "+79167778899" demo).1 = true) as Htrue
    by (by vm_compute).
  pose proof (add_phone_then_delete_phone 3 "+79167778899" "+79167778899"
                demo demo_wf Htrue eq_refl) as H.
  cbv zeta in H. by destruct H as (_ & H & _).
Defined.

(** ** An email has one owner, and an id is issued once *)

Lemma insert_phone_clients_seq client_id phone d :
  clients_client_id_seq (Sql.insert_phone client_id phone d).2
  = clients_client_id_seq d.
Proof.
  unfold Sql.insert_phone. destruct (Text.varchar _ _); [|done].
  destruct (Sql.nextval _); [|done]. by repeat case_bool_decide.
Qed.

Lemma add_phone_clients_seq client_id phone s :
  clients_client_id_seq (db (add_phone client_id phone s).2)
  = clients_client_id_seq (db s).
Proof.
  rewrite add_phone_unfold. simpl.
  destruct (Sql.select_client_id _ _); [done|]. simpl.
  apply insert_phone_clients_seq.
Qed.

Lemma add_phones_clients_seq client_id phones s :
  clients_client_id_seq (db (add_phones client_id phones s))
  = clients_client_id_seq (db s).
Proof.
  revert s. induction phones as [|phone phones IH]; intros s; [done|].
  simpl. by rewrite IH, add_phone_clients_seq.
Qed.

(** What a call of [add_client] that did not answer -1 has done. *)
Lemma add_client_issued first_name last_name email phones_arg s :
  (add_client first_name last_name email phones_arg s).1 ≠ -1 →
  let r := add_client first_name last_name email phones_arg s in
  r.1 = clients_client_id_seq (db s) ∧
  clients_client_id_seq (db r.2) = clients_client_id_seq (db s) + 1 ∧
  ∃ fn ln em,
    Text.varchar 100 email = Some em ∧
    clients (db r.2) =
      clients (db s) ++
        [Clients.Row r.1 fn ln em (current_timestamp (db s))].
Proof.
  simpl. rewrite add_client_unfold. simpl. unfold Sql.insert_client.
  destruct (Text.varchar 50 first_name) as [fn|]; [|done].
  destruct (Text.varchar 50 last_name) as [ln|]; [|done].
  destruct (Text.varchar 100 email) as [em|]; [|done].
  destruct (Sql.nextval _) as [id|] eqn:Hid; [|done].
  apply nextval_Some in Hid as ->.
  case_bool_decide; [done|]. case_bool_decide; [done|]. simpl. intros _.
  rewrite add_phones_clients_seq, add_phones_clients. simpl.
  split_and!; [done..|]. by exists fn, ln, em.
Qed.




Lemma insert_client_seq first_name last_name email d :
  clients_client_id_seq d
  ≤ clients_client_id_seq (Sql.insert_client first_name last_name email d).2.
Proof.
  unfold Sql.insert_client.
  destruct (Text.varchar 50 first_name), (Text.varchar 50 last_name),
    (Text.varchar 100 email); try done.
  destruct (Sql.nextval _) as [id|] eqn:Hid; [|done].
  apply nextval_Some in Hid as ->. repeat case_bool_decide; simpl; lia.
Qed.

Lemma run_clients_seq o s :
  clients_client_id_seq (db s) ≤ clients_client_id_seq (db (run o s)).
Proof.
  destruct o; simpl.
  - rewrite add_client_unfold. simpl.
    pose proof (insert_client_seq first_name last_name email (db s)) as H.
    destruct (Sql.insert_client _ _ _ _) as [[id|e] d']; simpl in *; [|done].
    by rewrite add_phones_clients_seq.
  - by rewrite add_phone_clients_seq.
  - rewrite update_client_unfold. simpl.
    destruct (Sql.select_client_id _ _); [done|].
    destruct (update_lists kw).1; [done|]. simpl. unfold Sql.update_clients.
    destruct (mapM _ _); [|done]. by case_bool_decide.
  - rewrite delete_phone_unfold. simpl.
    by destruct (Sql.select_client_id _ _).
  - rewrite delete_client_unfold. simpl.
    by destruct (Sql.select_client_name _ _).
  - by rewrite find_client_db.
  - by rewrite get_client_info_unfold.
  - done.
  - done.
Qed.

Lemma runs_clients_seq os s :
  clients_client_id_seq (db s) ≤ clients_client_id_seq (db (runs os s)).
Proof.
  revert s. induction os as [|o os IH]; intros s; [done|]. simpl.
  etrans; [apply (run_clients_seq o)|apply IH].
Qed.

(** A client id is issued once: whatever is called after [add_client] has
    created a client, deleting that client included, a later [add_client]
    that creates a client gives it a larger id. *)
Theorem client_ids_never_reused (first_name last_name email : string)
    (phones_arg : option (list string)) (s : session) (os : list operation)
    (first_name' last_name' email' : string)
    (phones_arg' : option (list string)) :
  let r := add_client first_name last_name email phones_arg s in
  let r' := add_client first_name' last_name' email' phones_arg'
              (runs os r.2) in
  r.1 ≠ -1 → r'.1 ≠ -1 → r.1 < r'.1.
Proof.
  simpl. intros (-> & Hseq & _)%add_client_issued
    (-> & _ & _)%add_client_issued.
  pose proof (runs_clients_seq os
                (add_client first_name last_name email phones_arg s).2).
  lia.
Qed.

Lemma client_ids_never_reused_witness :
  (add_client "Olga" "Orlova" "orlova@example.com" None demo).1
  < (add_client "Olga" "Orlova" "orlova@example.com" None
       (runs [Delete_client 4]
          (add_client "Olga" "Orlova" "orlova@example.com" None demo).2)).1.
Proof.
  apply (client_ids_never_reused "Olga" "Orlova" "orlova@example.com" None
           demo [Delete_client 4] "Olga" "Orlova" "orlova@example.com" None);
    by vm_compute.
Defined.

(** ** What stays true of the tables *)

Lemma insert_phone_numbers_present client_id phone d :
  numbers_present d → numbers_present (Sql.insert_phone client_id phone d).2.
Proof.
  unfold numbers_present, Sql.insert_phone. intros Hd.
  destruct (Text.varchar _ _); [|done]. destruct (Sql.nextval _); [|done].
  repeat case_bool_decide; simpl; try done.
  apply Forall_snoc; [done|]. by eexists.
Qed.

Lemma add_phone_numbers_present client_id phone s :
  numbers_present (db s) →
  numbers_present (db (add_phone client_id phone s).2).
Proof.
  intros Hs. rewrite add_phone_unfold. simpl.
  destruct (Sql.select_client_id _ _); [done|]. simpl.
  by apply insert_phone_numbers_present.
Qed.

Lemma add_phones_numbers_present client_id phones s :
  numbers_present (db s) →
  numbers_present (db (add_phones client_id phones s)).
Proof.
  revert s. induction phones as [|phone phones IH]; intros s Hs; [done|].
  simpl. apply IH. by apply add_phone_numbers_present.
Qed.

Lemma insert_client_phones first_name last_name email d :
  phones (Sql.insert_client first_name last_name email d).2 = phones d.
Proof.
  unfold Sql.insert_client.
  destruct (Text.varchar 50 first_name), (Text.varchar 50 last_name),
    (Text.varchar 100 email); try done.
  destruct (Sql.nextval _); [|done]. by repeat case_bool_decide.
Qed.

Lemma run_numbers_present o s :
  numbers_present (db s) → numbers_present (db (run o s)).
Proof.
  intros Hs. destruct o; simpl.
  - rewrite add_client_unfold. simpl.
    pose proof (insert_client_phones first_name last_name email (db s)) as H.
    destruct (Sql.insert_client _ _ _ _) as [[id|e] d']; simpl in *.
    + apply add_phones_numbers_present. unfold numbers_present. simpl.
      by rewrite H.
    + unfold numbers_present. by rewrite H.
  - by apply add_phone_numbers_present.
  - rewrite update_client_unfold. simpl.
    destruct (Sql.select_client_id _ _); [done|].
    destruct (update_lists kw).1; [done|]. simpl. unfold Sql.update_clients.
    destruct (mapM _ _); [|done]. by case_bool_decide.
  - rewrite delete_phone_unfold. simpl.
    destruct (Sql.select_client_id _ _); [done|]. simpl.
    by apply Forall_filter_sub.
  - rewrite delete_client_unfold. simpl.
    destruct (Sql.select_client_name _ _); [done|]. simpl.
    by apply Forall_filter_sub.
  - by rewrite find_client_db.
  - by rewrite get_client_info_unfold.
  - done.
  - done.
Qed.

Lemma reachable_numbers_present s : reachable s → numbers_present (db s).
Proof.
  induction 1 as [t|o s _ IH]; [constructor|by apply run_numbers_present].
Qed.

Lemma NoDup_present {A B} (f : A → option B) (l : list A) :
  Forall (λ x, is_Some (f x)) l → NoDup (omap f l) → NoDup (f <$> l).
Proof.
  induction l as [|x l IH]; simpl; [constructor|].
  intros [[y Hy] Hl]%Forall_cons. rewrite Hy.
  intros [Hx Hnd]%NoDup_cons. apply NoDup_cons. split; [|by apply IH].
  by rewrite <- elem_of_omap_fmap.
Qed.

(** However the methods are called on tables that started empty: no two
    clients share an id or an email, no two phone rows share a number, no
    phone row lacks its number, and every name, email and number is
    within the width of its column. *)
Theorem tables_stay_consistent (s : session) :
  reachable s →
  NoDup (Clients.client_id <$> clients (db s)) ∧
  NoDup (Clients.email <$> clients (db s)) ∧
  NoDup (Phones.phone_number <$> phones (db s)) ∧
  numbers_present (db s) ∧
  Forall row_fits (clients (db s)) ∧
  Forall (λ p, ∀ n, Phones.phone_number p = Some n →
                    (String.length n ≤ 20)%nat) (phones (db s)).
Proof.
  intros Hs. pose proof (reachable_wf s Hs) as Hwf.
  pose proof (reachable_numbers_present s Hs) as Hnum.
  split_and!; [apply Hwf..| | | |apply Hwf].
  - apply NoDup_present; [done|apply Hwf].
  - done.
  - by apply wf_row_fits.
Qed.

Lemma tables_stay_consistent_witness :
  reachable demo ∧ NoDup (Clients.email <$> clients (db demo)).
Proof.
  split; [exact demo_reachable|].
  apply (tables_stay_consistent demo demo_reachable).
Defined.

(** ** Showing the clients *)

Lemma join_None sep (items : list (option string)) :
  join sep items = None ↔ None ∈ items.
Proof.
  induction items as [|[x|] items IH].
  - simpl. split; [done|by intros ?%elem_of_nil].
  - rewrite elem_of_cons. destruct items as [|y items].
    + simpl. split; [done|]. by intros [?|?%elem_of_nil].
    + change (join sep (Some x :: y :: items))
        with ((λ r, x +:+ sep +:+ r) <$> join sep (y :: items)).
      rewrite fmap_None, IH. split; [by right|]. by intros [?|?].
  - simpl. split; [intros _; left|done].
Qed.

Section show_facts.
Variable strftime : Z → string.

Lemma show_client_raised i client :
  raised_TypeError (show_client strftime i client) = true ↔
  None ∈ Client.phones client.
Proof.
  unfold show_client. destruct (Client.phones client) as [|x xs] eqn:Hp.
  - simpl. split; [done|by intros ?%elem_of_nil].
  - destruct (join ", " (x :: xs)) as [text|] eqn:Hj; simpl.
    + split; [done|]. intros Hin%(join_None ", "). congruence.
    + split; [intros _|done]. by apply (join_None ", ").
Qed.

Lemma show_clients_raised i clients :
  raised_TypeError (show_clients strftime i clients) = true ↔
  ∃ client, client ∈ clients ∧ None ∈ Client.phones client.
Proof.
  revert i. induction clients as [|client clients IH]; intros i; simpl.
  - split; [done|]. by intros (? & ?%elem_of_nil & _).
  - destruct (raised_TypeError (show_client strftime i client)) eqn:Hr.
    + split; [intros _|done]. exists client. split; [left|].
      by apply (show_client_raised i).
    + simpl. rewrite IH. split.
      * intros (v & Hv & Hnone). exists v. split; [by right|done].
      * intros (v & [->|Hv]%elem_of_cons & Hnone); [|by exists v].
        apply (show_client_raised i) in Hnone. congruence.
Qed.

Lemma show_all_clients_raised s :
  raised_TypeError (show_all_clients strftime s).1 = true ↔
  ∃ client, client ∈ (get_all_clients s).1 ∧ None ∈ Client.phones client.
Proof.
  unfold show_all_clients.
  destruct (get_all_clients s).1 as [|client clients] eqn:Hl; simpl.
  - split; [done|]. by intros (? & ?%elem_of_nil & _).
  - apply (show_clients_raised 1 (client :: clients)).
Qed.
End show_facts.

Lemma listed_phones_None client_id d :
  numbers_present d →
  None ∈ listed_phones client_id d ↔ phone_numbers_of client_id d = [].
Proof.
  intros Hd. unfold listed_phones.
  destruct (phone_numbers_of client_id d) as [|n ns] eqn:Hn.
  - split; [done|intros _; left].
  - split; [|done]. rewrite <- Hn. unfold phone_numbers_of.
    intros (p & Hp & [_ Hin]%list_elem_of_filter)%list_elem_of_fmap.
    unfold numbers_present in Hd. rewrite Forall_forall in Hd.
    destruct (Hd p Hin) as [? ?]. congruence.
Qed.

(** [show_all_clients] ends by a TypeError, which it does not catch,
    exactly when some client has no phone: joining the phones of that
    client meets the null.  Either way it has sent the one SELECT of
    [get_all_clients] and left the database as it was. *)
Theorem show_all_clients_raises (strftime : Z → string) (s : session) :
  reachable s →
  (raised_TypeError (show_all_clients strftime s).1 = true ↔
   ∃ c, c ∈ clients (db s) ∧
        phone_numbers_of (Clients.client_id c) (db s) = []) ∧
  (show_all_clients strftime s).2
  = Session (db s) (executed s ++ [sent SELECT_all_clients]).
Proof.
  intros Hs. pose proof (reachable_wf s Hs) as Hwf.
  pose proof (reachable_numbers_present s Hs) as Hnum. split.
  - rewrite show_all_clients_raised. split.
    + intros (client & Hin & Hnone).
      rewrite get_all_clients_listed in Hin by done.
      apply list_elem_of_fmap in Hin as (c & -> & Hc). exists c.
      split; [done|]. by apply listed_phones_None.
    + intros (c & Hc & Hnone). exists (listed (db s) c). split.
      * rewrite get_all_clients_listed by done. by apply list_elem_of_fmap_2.
      * by apply listed_phones_None.
  - unfold show_all_clients. by destruct (get_all_clients s).1.
Qed.

Lemma show_all_clients_raises_witness :
  reachable demo ∧
  raised_TypeError (show_all_clients (λ _, "01.01.2026 10:00") demo).1 = true.
Proof.
  split; [exact demo_reachable|].
  apply (show_all_clients_raises (λ _, "01.01.2026 10:00") demo
           demo_reachable).
  exists (Clients.Row 3 "Maria" "Sidorova" "sidorova@example.com" 0).
  split; [by_computation|reflexivity].
Defined.

(** On an empty clients table [show_all_clients] prints the heading with
    the count 0 and the line that says there is no client, and returns. *)
Theorem show_all_clients_empty (strftime : Z → string) (s : session) :
  clients (db s) = [] →
  (show_all_clients strftime s).1
  = Output [line_feed +:+ bar; "ВСЕ КЛИЕНТЫ В БАЗЕ (всего: 0)"; bar;
            "В базе нет клиентов"] false.
Proof.
  intros Hempty. unfold show_all_clients. rewrite get_all_clients_unfold.
  simpl. unfold Sql.select_all_clients. by rewrite Hempty.
Qed.

Lemma show_all_clients_empty_witness :
  (show_all_clients (λ _, "01.01.2026 10:00") connect).1
  = Output [line_feed +:+ bar; "ВСЕ КЛИЕНТЫ В БАЗЕ (всего: 0)"; bar;
            "В базе нет клиентов"] false.
Proof. by apply show_all_clients_empty. Defined.

(** ** Looking a client up after a change *)

Lemma elem_of_client_ids client_id (cs : list Clients.row) :
  client_id ∈ Clients.client_id <$> cs →
  ∃ c, c ∈ cs ∧ Clients.client_id c = client_id.
Proof. intros (c & -> & Hc)%list_elem_of_fmap. by exists c. Qed.



(** After [delete_phone] has answered True, the client has the numbers it
    had before without the deleted one, and every other client has the
    numbers it had. *)
Theorem delete_phone_then_numbers (client_id : Z) (phone : string)
    (s : session) :
  (delete_phone client_id phone s).1 = true →
  let s1 := (delete_phone client_id phone s).2 in
  phone_numbers_of client_id (db s1)
  = filter (λ n, n ≠ Some phone) (phone_numbers_of client_id (db s)) ∧
  ∀ other, other ≠ client_id →
           phone_numbers_of other (db s1) = phone_numbers_of other (db s).
Proof.
  simpl. rewrite delete_phone_unfold. simpl.
  destruct (Sql.select_client_id _ _) as [|x xs]; [done|]. simpl.
  intros _. unfold phone_numbers_of. simpl. split.
  - rewrite list_filter_filter.
    induction (phones (db s)) as [|p ps IH]; [done|].
    rewrite !filter_cons.
    destruct (decide (Phones.client_id p = client_id)) as [Hp|Hp].
    + destruct (decide (Phones.phone_number p = Some phone)) as [Hn|Hn].
      * rewrite decide_False by tauto. rewrite fmap_cons, filter_cons.
        rewrite decide_False by tauto. apply IH.
      * rewrite decide_True by tauto. rewrite !fmap_cons, filter_cons.
        rewrite decide_True by done. f_equal. apply IH.
    + rewrite decide_False by tauto. apply IH.
  - intros other Hother. rewrite list_filter_filter. f_equal.
    apply list_filter_iff. intros p. split; [tauto|].
    intros Hp. split; [done|]. intros [Hc _]. congruence.
Qed.

Lemma delete_phone_then_numbers_witness :
  phone_numbers_of 1 (db (delete_phone 1 "+74951234567" demo).2)
  = filter (λ n, n ≠ Some "+74951234567") (phone_numbers_of 1 (db demo)).
Proof.
  assert ((delete_phone 1 "+74951234567" demo).1 = true) as Htrue
    by (by vm_compute).
  pose proof (delete_phone_then_numbers 1 "+74951234567" demo Htrue) as H.
  cbv zeta in H. by destruct H as [H _].
Defined.

(** After [delete_client] has answered True, the client is gone for every
    method: [get_client_info] answers None, [get_all_clients] does not
    list it, a second [delete_client] answers False; and every other
    client is shown by [get_client_info] as before. *)
Theorem delete_client_then_gone (client_id : Z) (s : session) :
  wf (db s) →
  (delete_client client_id s).1 = true →
  let s1 := (delete_client client_id s).2 in
  (get_client_info client_id s1).1 = None ∧
  (∀ client, client ∈ (get_all_clients s1).1 →
             Client.client_id client ≠ client_id) ∧
  (delete_client client_id s1).1 = false ∧
  ∀ other, other ≠ client_id →
           (get_client_info other s1).1 = (get_client_info other s).1.
Proof.
  intros Hwf Htrue. cbv zeta.
  pose proof (delete_client_method_wf client_id s Hwf) as Hwf1.
  set (s1 := (delete_client client_id s).2) in *.
  assert (db s1 = Sql.delete_client client_id (db s) ∧
          client_id ∈ Clients.client_id <$> clients (db s)) as [Hdb Hex].
  { unfold s1. revert Htrue. rewrite delete_client_unfold. simpl.
    destruct (Sql.select_client_name _ _) as [|x xs] eqn:Hsel; [done|].
    intros _. split; [done|].
    destruct (decide (client_id ∈ Clients.client_id <$> clients (db s)))
      as [|Hn]; [done|].
    apply select_client_name_nil in Hn. congruence. }
  assert (client_id ∉ Clients.client_id <$> clients (db s1)) as Hgone.
  { rewrite Hdb. simpl.
    by intros (c & -> & [? _]%list_elem_of_filter)%list_elem_of_fmap. }
  split_and!.
  - by apply get_client_info_missing.
  - intros client Hin. rewrite get_all_clients_listed in Hin by done.
    apply list_elem_of_fmap in Hin as (c & -> & Hc). simpl. intros Heq.
    apply Hgone. rewrite <- Heq. by apply list_elem_of_fmap_2.
  - rewrite delete_client_unfold. simpl.
    apply select_client_name_nil in Hgone. by rewrite Hgone.
  - intros other Hother.
    destruct (decide (other ∈ Clients.client_id <$> clients (db s)))
      as [(c & Hc & <-)%elem_of_client_ids|Hn].
    + rewrite (get_client_info_listed s c) by done.
      rewrite (get_client_info_listed s1 c);
        [|done|rewrite Hdb; by apply list_elem_of_filter].
      f_equal. unfold listed, listed_phones, phone_numbers_of.
      rewrite Hdb. simpl. rewrite list_filter_filter.
      rewrite (list_filter_iff _
                 (λ p, Phones.client_id p = Clients.client_id c));
        [done|].
      intros p. split; [tauto|]. intros Hp. split; [done|].
      intros (c' & Hpc & [Hc' _]%list_elem_of_filter)%list_elem_of_fmap.
      congruence.
    + rewrite (get_client_info_missing other s) by done.
      apply get_client_info_missing. rewrite Hdb. simpl.
      intros (c & -> & [_ Hc]%list_elem_of_filter)%list_elem_of_fmap.
      apply Hn. by apply list_elem_of_fmap_2.
Qed.

Lemma delete_client_then_gone_witness :
  wf (db demo) ∧
  (get_client_info 1 (delete_client 1 demo).2).1 = None ∧
  (delete_client 1 (delete_client 1 demo).2).1 = false.
Proof.
  split; [exact demo_wf|].
  assert ((delete_client 1 demo).1 = true) as Htrue by (by vm_compute).
  pose proof (delete_client_then_gone 1 demo demo_wf Htrue) as H.
  cbv zeta in H. destruct H as (H1 & _ & H2 & _). by split.
Defined.

(** ** Creating a client and looking it up *)




